(** * AsmJit: CPU features bit-set, CPU information record and the a32
      instruction-id space

    A shallow embedding of [src/asmjit/core/cpuinfo.h] and
    [src/asmjit/arm/a32globals.h], followed by the properties of the
    feature set ([CpuFeatures::Data]), of the CPU information record
    ([CpuInfo]) and of [a32::Inst::isDefinedId].

    Conventions of the embedding:
    - unsigned machine integers are [Z] values; a conversion to a [w]-bit
      unsigned type is written out as reduction modulo [2 ^ w];
    - [Support::Array<BitWord, N>] is a [list Z], indexed with stdpp's list
      lookup [!!] and updated with [<[_:=_]>]; an index outside the array is
      not a defined access in the C++ code, here it makes the operation
      return [None];
    - [ASMJIT_ASSERT] is kept: an operation whose assertion fails returns
      [None], so every operation on the feature set lives in the [option]
      monad;
    - a variadic member template (a parameter pack of feature ids) is a
      function of the first id and the list of the remaining ones, with one
      equation per C++ overload. *)

From Stdlib Require Import ZArith Lia.
From Stdlib Require Strings.Byte.
From stdpp Require Import base option list strings.

Local Open Scope Z_scope.

(** ** Integer conversions *)

(** [uint32_t(x)]: conversion to a 32-bit unsigned integer. *)
Definition uint32_t (x : Z) : Z := x mod 2 ^ 32.

(** [bool(x)] for an integer [x]: true iff [x] is not zero. *)
Definition bool_of_int (x : Z) : bool := negb (x =? 0).

(** [unsigned(b)], [uint32_t(b)], [BitWord(b)] for a [bool] b: 0 or 1. *)
Definition int_of_bool (b : bool) : Z := if b then 1 else 0.

(** [ASMJIT_ASSERT(cond)]: goes on when [cond] holds, fails otherwise. *)
Definition ASMJIT_ASSERT (cond : bool) : option unit :=
  if cond then Some tt else None.

(** ** Support: the machine word that stores feature bits *)

(** Modelled from the spec: [Support::BitWord] and
    [Support::kBitWordSizeInBits] are declared in [core/support.h], which is
    not among the sources at hand.  The word is an unsigned machine word
    whose width "is a storage-layout choice, e.g. 32 or 64 bits"; the width
    is a parameter of the whole development, with both choices available as
    instances. *)
Class BitWordLayout := {
  kBitWordSizeInBits : Z;
  kBitWordSizeInBits_cases :
    kBitWordSizeInBits = 32 \/ kBitWordSizeInBits = 64
}.

Definition BitWord32 : BitWordLayout :=
  {| kBitWordSizeInBits := 32; kBitWordSizeInBits_cases := or_introl eq_refl |}.

Definition BitWord64 : BitWordLayout :=
  {| kBitWordSizeInBits := 64; kBitWordSizeInBits_cases := or_intror eq_refl |}.

Module Support.
Section BitWord.
Context {layout : BitWordLayout}.

(** [BitWord(x)]: conversion to the word type. *)
Definition BitWord (x : Z) : Z := x mod 2 ^ kBitWordSizeInBits.

(** [x << n] on words. *)
Definition shl (x n : Z) : Z := BitWord (Z.shiftl x n).

(** [x >> n] on words (logical shift, the type is unsigned). *)
Definition shr (x n : Z) : Z := Z.shiftr x n.

(** [~x] on words. *)
Definition bit_not (x : Z) : Z := BitWord (Z.lnot x).

(** A value of the word type. *)
Definition is_BitWord (x : Z) : Prop := 0 <= x < 2 ^ kBitWordSizeInBits.

(** Modelled from the spec: [Support::Array] is declared in
    [core/support.h], which is not among the sources at hand.
    [aggregate<Support::Or>(initial)] is the bitwise OR of [initial] and
    every element, so that [empty()] is "true iff every storage word is
    zero". *)
Definition aggregate_Or (a : list Z) (initial : Z) : Z :=
  fold_left Z.lor a initial.

(** Modelled from the spec: [Array::fill(value)] stores [value] in every
    element ("created zero-initialized", "never shrinks or grows"). *)
Definition fill (a : list Z) (value : Z) : list Z :=
  replicate (length a) value.
End BitWord.
End Support.

(** ** CpuFeatures *)

(** The members of [CpuFeatures::Data], under the names they have in the
    source.  [self] is the object the member function is called on; a
    mutating member returns the object after the call. *)
Module CpuFeatures.
Section Data.
Context {layout : BitWordLayout}.

Definition kMaxFeatures : Z := 256.
Definition kNumBitWords : Z := kMaxFeatures / kBitWordSizeInBits.

(** [struct Data { Support::Array<BitWord, kNumBitWords> _bits; }] *)
Record Data := { _bits : list Z }.

(** The array type of [_bits]: [kNumBitWords] words. *)
Definition Data_wf (self : Data) : Prop :=
  length (_bits self) = Z.to_nat kNumBitWords /\
  Forall Support.is_BitWord (_bits self).

(** [Data _data {}]: value-initialised, every word is zero. *)
Definition Data_zero : Data :=
  {| _bits := replicate (Z.to_nat kNumBitWords) 0 |}.

Definition empty (self : Data) : bool :=
  Support.aggregate_Or (_bits self) 0 =? 0.

Definition has (featureId : Z) (self : Data) : option bool :=
  _ ← ASMJIT_ASSERT (uint32_t featureId <? kMaxFeatures);
  let idx := uint32_t featureId / kBitWordSizeInBits in
  let bit := uint32_t featureId mod kBitWordSizeInBits in
  w ← _bits self !! Z.to_nat idx;
  Some (bool_of_int (Z.land (Support.shr w bit) 1)).

(** [hasAny(featureId)] and [hasAny(featureId, otherFeatureIds...)]. *)
Fixpoint hasAny (featureId : Z) (otherFeatureIds : list Z) (self : Data)
  : option bool :=
  match otherFeatureIds with
  | [] => has featureId self
  | g :: rest =>
      a ← has featureId self;
      b ← hasAny g rest self;
      Some (bool_of_int (Z.lor (int_of_bool a) (int_of_bool b)))
  end.

(** The body of the loop of [hasAll], run over the indices [ixs]. *)
Fixpoint hasAll_loop (ixs : list nat) (result : Z) (self other : Data)
  : option Z :=
  match ixs with
  | [] => Some result
  | i :: ixs' =>
      a ← _bits self !! i;
      b ← _bits other !! i;
      hasAll_loop ixs'
        (Z.land result (uint32_t (int_of_bool (Z.land a b =? b))))
        self other
  end.

Definition hasAll (self other : Data) : option bool :=
  result ← hasAll_loop (seq 0 (Z.to_nat kNumBitWords)) 1 self other;
  Some (bool_of_int result).

Definition reset (self : Data) : Data :=
  {| _bits := Support.fill (_bits self) 0 |}.

Definition add (featureId : Z) (self : Data) : option Data :=
  _ ← ASMJIT_ASSERT (uint32_t featureId <? kMaxFeatures);
  let idx := uint32_t featureId / kBitWordSizeInBits in
  let bit := uint32_t featureId mod kBitWordSizeInBits in
  w ← _bits self !! Z.to_nat idx;
  Some {| _bits := <[Z.to_nat idx := Z.lor w (Support.shl (Support.BitWord 1) bit)]>
                     (_bits self) |}.

(** [add(featureId, otherFeatureIds...)]. *)
Fixpoint add_pack (featureId : Z) (otherFeatureIds : list Z) (self : Data)
  : option Data :=
  match otherFeatureIds with
  | [] => add featureId self
  | g :: rest => self' ← add featureId self; add_pack g rest self'
  end.

Definition addIf (condition : bool) (featureId : Z) (self : Data)
  : option Data :=
  _ ← ASMJIT_ASSERT (uint32_t featureId <? kMaxFeatures);
  let idx := uint32_t featureId / kBitWordSizeInBits in
  let bit := uint32_t featureId mod kBitWordSizeInBits in
  w ← _bits self !! Z.to_nat idx;
  Some {| _bits :=
            <[Z.to_nat idx :=
                Z.lor w (Support.shl (Support.BitWord (int_of_bool condition)) bit)]>
              (_bits self) |}.

(** [addIf(condition, featureId, otherFeatureIds...)]. *)
Fixpoint addIf_pack (condition : bool) (featureId : Z)
    (otherFeatureIds : list Z) (self : Data) : option Data :=
  match otherFeatureIds with
  | [] => addIf condition featureId self
  | g :: rest =>
      self' ← addIf condition featureId self;
      addIf_pack condition g rest self'
  end.

Definition remove (featureId : Z) (self : Data) : option Data :=
  _ ← ASMJIT_ASSERT (uint32_t featureId <? kMaxFeatures);
  let idx := uint32_t featureId / kBitWordSizeInBits in
  let bit := uint32_t featureId mod kBitWordSizeInBits in
  w ← _bits self !! Z.to_nat idx;
  Some {| _bits :=
            <[Z.to_nat idx :=
                Z.land w (Support.bit_not (Support.shl (Support.BitWord 1) bit))]>
              (_bits self) |}.

(** [remove(featureId, otherFeatureIds...)]. *)
Fixpoint remove_pack (featureId : Z) (otherFeatureIds : list Z)
    (self : Data) : option Data :=
  match otherFeatureIds with
  | [] => remove featureId self
  | g :: rest => self' ← remove featureId self; remove_pack g rest self'
  end.

(** [eq(other)]: [_bits == other._bits], element by element. *)
Definition eq (self other : Data) : bool :=
  bool_decide (_bits self = _bits other).

(** [operator==] and [operator!=]. *)
Definition op_eq (self other : Data) : bool := eq self other.
Definition op_ne (self other : Data) : bool := negb (eq self other).

(** [bits()] and [bitWordCount()]. *)
Definition bits (self : Data) : list Z := _bits self.
Definition bitWordCount (self : Data) : Z := kNumBitWords.
End Data.
End CpuFeatures.

(** The value of each enumerator of a C++ enumeration: the initialiser when
    there is one, else one more than the enumerator before it ([next]). *)
Fixpoint enum_values (enumerators : list (string * option Z)) (next : Z)
  : list (string * Z) :=
  match enumerators with
  | [] => []
  | (name, init) :: rest =>
      let v := match init with Some v => v | None => next end in
      (name, v) :: enum_values rest (v + 1)
  end.

Fixpoint enum_lookup (values : list (string * Z)) (name : string) : option Z :=
  match values with
  | [] => None
  | (n, v) :: rest => if String.eqb n name then Some v else enum_lookup rest name
  end.

(** [struct X86 : public Data]: the feature ids of X86. *)
Module X86.
(** The enumerators of [enum Id : uint8_t] declared before [kMaxValue], in
    the order of the source; none of them has an initialiser. *)
Definition Id_before_kMaxValue : list (string * option Z) :=
  map (fun name => (name, None))
  [
   "kNone"; "kMT"; "kNX"; "k3DNOW"; "k3DNOW2"; "kADX"; "kAESNI";
   "kALTMOVCR8"; "kAMX_BF16"; "kAMX_COMPLEX"; "kAMX_FP16"; "kAMX_INT8";
   "kAMX_TILE"; "kAVX"; "kAVX2"; "kAVX512_4FMAPS"; "kAVX512_4VNNIW";
   "kAVX512_BF16"; "kAVX512_BITALG"; "kAVX512_BW"; "kAVX512_CD";
   "kAVX512_DQ"; "kAVX512_ER"; "kAVX512_F"; "kAVX512_FP16"; "kAVX512_IFMA";
   "kAVX512_PF"; "kAVX512_VBMI"; "kAVX512_VBMI2"; "kAVX512_VL";
   "kAVX512_VNNI"; "kAVX512_VP2INTERSECT"; "kAVX512_VPOPCNTDQ"; "kAVX_IFMA";
   "kAVX_NE_CONVERT"; "kAVX_VNNI"; "kAVX_VNNI_INT8"; "kBMI"; "kBMI2";
   "kCET_IBT"; "kCET_SS"; "kCET_SSS"; "kCLDEMOTE"; "kCLFLUSH"; "kCLFLUSHOPT";
   "kCLWB"; "kCLZERO"; "kCMOV"; "kCMPCCXADD"; "kCMPXCHG16B"; "kCMPXCHG8B";
   "kENCLV"; "kENQCMD"; "kERMS"; "kF16C"; "kFMA"; "kFMA4"; "kFPU";
   "kFSGSBASE"; "kFSRM"; "kFSRC"; "kFSRS"; "kFXSR"; "kFXSROPT"; "kFZRM";
   "kGEODE"; "kGFNI"; "kHLE"; "kHRESET"; "kI486"; "kLAHFSAHF"; "kLAM";
   "kLWP"; "kLZCNT"; "kMCOMMIT"; "kMMX"; "kMMX2"; "kMONITOR"; "kMONITORX";
   "kMOVBE"; "kMOVDIR64B"; "kMOVDIRI"; "kMPX"; "kMSR"; "kMSRLIST"; "kMSSE";
   "kOSXSAVE"; "kOSPKE"; "kPCLMULQDQ"; "kPCONFIG"; "kPOPCNT"; "kPREFETCHITI";
   "kPREFETCHW"; "kPREFETCHWT1"; "kPTWRITE"; "kRAO_INT"; "kRDPID"; "kRDPRU";
   "kRDRAND"; "kRDSEED"; "kRDTSC"; "kRDTSCP"; "kRTM"; "kSERIALIZE"; "kSHA";
   "kSKINIT"; "kSMAP"; "kSMEP"; "kSMX"; "kSNP"; "kSSE"; "kSSE2"; "kSSE3";
   "kSSE4_1"; "kSSE4_2"; "kSSE4A"; "kSSSE3"; "kSVM"; "kTBM"; "kTSX";
   "kTSXLDTRK"; "kUINTR"; "kVAES"; "kVMX"; "kVPCLMULQDQ"; "kWAITPKG";
   "kWBNOINVD"; "kWRMSRNS"; "kXOP"; "kXSAVE"; "kXSAVEC"; "kXSAVEOPT";
   "kXSAVES"
  ]%string.

(** [kXSAVES], as the initialiser of [kMaxValue] reads it: the value that
    the enumerators declared so far give it. *)
Definition kXSAVES : Z :=
  Eval vm_compute in
    default 0 (enum_lookup (enum_values Id_before_kMaxValue 0) "kXSAVES").

(** [enum Id : uint8_t]: every enumerator, in the order of the source; the
    last one is [kMaxValue = kXSAVES]. *)
Definition Id_enumerators : list (string * option Z) :=
  Id_before_kMaxValue ++ [("kMaxValue"%string, Some kXSAVES)].

Definition Id : list (string * Z) :=
  Eval vm_compute in enum_values Id_enumerators 0.

Definition Id_value (name : string) : option Z := enum_lookup Id name.

Definition kNone : Z := Eval vm_compute in default 0 (Id_value "kNone").
Definition kAVX : Z := Eval vm_compute in default 0 (Id_value "kAVX").
Definition kAVX2 : Z := Eval vm_compute in default 0 (Id_value "kAVX2").
Definition kBMI2 : Z := Eval vm_compute in default 0 (Id_value "kBMI2").
Definition kSSE : Z := Eval vm_compute in default 0 (Id_value "kSSE").
Definition kMaxValue : Z :=
  Eval vm_compute in default 0 (Id_value "kMaxValue").

(** The arguments of the [ASMJIT_X86_FEATURE(FEATURE)] macro calls, in the
    order of the source: the features that have an accessor. *)
Definition FEATURES : list string :=
  [
   "MT"; "NX"; "3DNOW"; "3DNOW2"; "ADX"; "AESNI"; "ALTMOVCR8"; "AMX_BF16";
   "AMX_COMPLEX"; "AMX_FP16"; "AMX_INT8"; "AMX_TILE"; "AVX"; "AVX2";
   "AVX512_4FMAPS"; "AVX512_4VNNIW"; "AVX512_BF16"; "AVX512_BITALG";
   "AVX512_BW"; "AVX512_CD"; "AVX512_DQ"; "AVX512_ER"; "AVX512_F";
   "AVX512_FP16"; "AVX512_IFMA"; "AVX512_PF"; "AVX512_VBMI"; "AVX512_VBMI2";
   "AVX512_VL"; "AVX512_VNNI"; "AVX512_VP2INTERSECT"; "AVX512_VPOPCNTDQ";
   "AVX_IFMA"; "AVX_NE_CONVERT"; "AVX_VNNI"; "AVX_VNNI_INT8"; "BMI"; "BMI2";
   "CET_IBT"; "CET_SS"; "CET_SSS"; "CLDEMOTE"; "CLFLUSH"; "CLFLUSHOPT";
   "CLWB"; "CLZERO"; "CMOV"; "CMPXCHG16B"; "CMPXCHG8B"; "ENCLV"; "ENQCMD";
   "ERMS"; "F16C"; "FMA"; "FMA4"; "FPU"; "FSGSBASE"; "FSRM"; "FSRC"; "FSRS";
   "FXSR"; "FXSROPT"; "FZRM"; "GEODE"; "GFNI"; "HLE"; "HRESET"; "I486";
   "LAHFSAHF"; "LAM"; "LWP"; "LZCNT"; "MCOMMIT"; "MMX"; "MMX2"; "MONITOR";
   "MONITORX"; "MOVBE"; "MOVDIR64B"; "MOVDIRI"; "MPX"; "MSR"; "MSRLIST";
   "MSSE"; "OSXSAVE"; "OSPKE"; "PCLMULQDQ"; "PCONFIG"; "POPCNT";
   "PREFETCHITI"; "PREFETCHW"; "PREFETCHWT1"; "PTWRITE"; "RAO_INT"; "RDPID";
   "RDPRU"; "RDRAND"; "RDSEED"; "RDTSC"; "RDTSCP"; "RTM"; "SERIALIZE"; "SHA";
   "SKINIT"; "SMAP"; "SMEP"; "SMX"; "SNP"; "SSE"; "SSE2"; "SSE3"; "SSE4_1";
   "SSE4_2"; "SSE4A"; "SSSE3"; "SVM"; "TBM"; "TSX"; "TSXLDTRK"; "UINTR";
   "VAES"; "VMX"; "VPCLMULQDQ"; "WAITPKG"; "WBNOINVD"; "WRMSRNS"; "XOP";
   "XSAVE"; "XSAVEC"; "XSAVEOPT"; "XSAVES"
  ]%string.

(** [has##FEATURE()]: [has(X86::k##FEATURE)].  The member exists for the
    features of the macro calls only; for any other name there is nothing
    to call, and the result is [None]. *)
Definition hasFEATURE {layout : BitWordLayout} (FEATURE : string)
    (self : CpuFeatures.Data) : option bool :=
  if bool_decide (FEATURE ∈ FEATURES) then
    id ← Id_value ("k" +:+ FEATURE);
    CpuFeatures.has id self
  else None.
End X86.

(** [struct ARM : public Data]: the feature ids of ARM. *)
Module ARM.
(** The enumerators of [enum Id : uint8_t] declared before [kMaxValue], in
    the order of the source; [kNone = 0] alone has an initialiser. *)
Definition Id_before_kMaxValue : list (string * option Z) :=
  ("kNone", Some 0) ::
  map (fun name => (name, None))
  [
   "kARMv6"; "kARMv7"; "kARMv8a"; "kTHUMB"; "kTHUMBv2"; "kAES"; "kAFP";
   "kASIMD"; "kBF16"; "kBTI"; "kCCIDX"; "kCHK"; "kCLRBHB"; "kCPUID";
   "kCRC32"; "kCSSC"; "kD128"; "kDGH"; "kDIT"; "kDOTPROD"; "kDPB"; "kDPB2";
   "kEBF16"; "kECV"; "kEDSP"; "kFCMA"; "kFGT"; "kFGT2"; "kFHM"; "kFLAGM";
   "kFLAGM2"; "kFMAC"; "kFP"; "kFP16"; "kFP16CONV"; "kFRINTTS"; "kGCS";
   "kHBC"; "kHCX"; "kI8MM"; "kIDIVA"; "kIDIVT"; "kJSCVT"; "kLOR"; "kLRCPC";
   "kLRCPC2"; "kLRCPC3"; "kLS64"; "kLS64_ACCDATA"; "kLS64_V"; "kLSE";
   "kLSE128"; "kLSE2"; "kMOPS"; "kMPAM"; "kMTE"; "kMTE2"; "kMTE3"; "kMTE4";
   "kNMI"; "kNV"; "kNV2"; "kPAN"; "kPAN2"; "kPAN3"; "kPAUTH"; "kPMU";
   "kPMULL"; "kPRFMSLC"; "kRAS"; "kRAS1_1"; "kRAS2"; "kRDM"; "kRME"; "kRNG";
   "kRNG_TRAP"; "kRPRES"; "kRPRFM"; "kSB"; "kSHA1"; "kSHA256"; "kSHA3";
   "kSHA512"; "kSM3"; "kSM4"; "kSME"; "kSME2"; "kSME2_1"; "kSME_B16B16";
   "kSME_B16F32"; "kSME_BI32I32"; "kSME_F16F16"; "kSME_F16F32";
   "kSME_F32F32"; "kSME_F64F64"; "kSME_FA64"; "kSME_I16I32"; "kSME_I16I64";
   "kSME_I8I32"; "kSPECRES"; "kSPECRES2"; "kSSBS"; "kSSBS2"; "kSVE"; "kSVE2";
   "kSVE2_1"; "kSVE_AES"; "kSVE_B16B16"; "kSVE_BF16"; "kSVE_BITPERM";
   "kSVE_EBF16"; "kSVE_F32MM"; "kSVE_F64MM"; "kSVE_I8MM"; "kSVE_PMULL128";
   "kSVE_SHA3"; "kSVE_SM4"; "kSYSINSTR128"; "kSYSREG128"; "kTHE"; "kTME";
   "kTRF"; "kUAO"; "kVFP_D32"; "kVHE"; "kWFXT"; "kXS"
  ]%string.

(** [kXS], as the initialiser of [kMaxValue] reads it: the value that the
    enumerators declared so far give it. *)
Definition kXS : Z :=
  Eval vm_compute in
    default 0 (enum_lookup (enum_values Id_before_kMaxValue 0) "kXS").

(** [enum Id : uint8_t]: every enumerator, in the order of the source; the
    last one is [kMaxValue = kXS]. *)
Definition Id_enumerators : list (string * option Z) :=
  Id_before_kMaxValue ++ [("kMaxValue"%string, Some kXS)].

Definition Id : list (string * Z) :=
  Eval vm_compute in enum_values Id_enumerators 0.

Definition Id_value (name : string) : option Z := enum_lookup Id name.

Definition kNone : Z := Eval vm_compute in default 0 (Id_value "kNone").
Definition kMaxValue : Z :=
  Eval vm_compute in default 0 (Id_value "kMaxValue").

(** The arguments of the [ASMJIT_ARM_FEATURE(FEATURE)] macro calls, in the
    order of the source. *)
Definition FEATURES : list string :=
  [
   "THUMB"; "THUMBv2"; "ARMv6"; "ARMv7"; "ARMv8a"; "AES"; "AFP"; "ASIMD";
   "BF16"; "BTI"; "CCIDX"; "CHK"; "CLRBHB"; "CPUID"; "CRC32"; "CSSC"; "D128";
   "DGH"; "DIT"; "DOTPROD"; "DPB"; "DPB2"; "EBF16"; "ECV"; "EDSP"; "FCMA";
   "FGT"; "FGT2"; "FHM"; "FLAGM"; "FLAGM2"; "FMAC"; "FP"; "FP16"; "FP16CONV";
   "FRINTTS"; "GCS"; "HBC"; "HCX"; "I8MM"; "IDIVA"; "IDIVT"; "JSCVT"; "LOR";
   "LRCPC"; "LRCPC2"; "LRCPC3"; "LS64"; "LS64_ACCDATA"; "LS64_V"; "LSE";
   "LSE128"; "LSE2"; "MOPS"; "MPAM"; "MTE"; "MTE2"; "MTE3"; "MTE4"; "NMI";
   "NV"; "NV2"; "PAN"; "PAN2"; "PAN3"; "PAUTH"; "PMU"; "PMULL"; "PRFMSLC";
   "RAS"; "RAS1_1"; "RAS2"; "RDM"; "RME"; "RNG"; "RNG_TRAP"; "RPRES";
   "RPRFM"; "SB"; "SHA1"; "SHA256"; "SHA3"; "SHA512"; "SM3"; "SM4"; "SME";
   "SME2"; "SME2_1"; "SME_B16B16"; "SME_B16F32"; "SME_BI32I32"; "SME_F16F16";
   "SME_F16F32"; "SME_F32F32"; "SME_F64F64"; "SME_FA64"; "SME_I16I32";
   "SME_I16I64"; "SME_I8I32"; "SPECRES"; "SPECRES2"; "SSBS"; "SSBS2"; "SVE";
   "SVE2"; "SVE2_1"; "SVE_AES"; "SVE_B16B16"; "SVE_BF16"; "SVE_BITPERM";
   "SVE_EBF16"; "SVE_F32MM"; "SVE_F64MM"; "SVE_I8MM"; "SVE_PMULL128";
   "SVE_SHA3"; "SVE_SM4"; "SYSINSTR128"; "SYSREG128"; "THE"; "TME"; "TRF";
   "UAO"; "VFP_D32"; "VHE"; "WFXT"; "XS"
  ]%string.

(** [has##FEATURE()]: [has(ARM::k##FEATURE)].  The member exists for the
    features of the macro calls only; for any other name there is nothing
    to call, and the result is [None]. *)
Definition hasFEATURE {layout : BitWordLayout} (FEATURE : string)
    (self : CpuFeatures.Data) : option bool :=
  if bool_decide (FEATURE ∈ FEATURES) then
    id ← Id_value ("k" +:+ FEATURE);
    CpuFeatures.has id self
  else None.
End ARM.

(** [class CpuFeatures { Data _data {}; }]: the class forwards every member
    function to its [_data]. *)
Module CpuFeaturesClass.
Section CpuFeaturesClass.
Context {layout : BitWordLayout}.

Record t := { _data : CpuFeatures.Data }.

(** [CpuFeatures()]: [_data] is value-initialised. *)
Definition ctor : t := {| _data := CpuFeatures.Data_zero |}.

Definition empty (self : t) : bool := CpuFeatures.empty (_data self).

Definition has (featureId : Z) (self : t) : option bool :=
  CpuFeatures.has featureId (_data self).

Definition hasAny (featureId : Z) (otherFeatureIds : list Z) (self : t)
  : option bool :=
  CpuFeatures.hasAny featureId otherFeatureIds (_data self).

Definition hasAll (self other : t) : option bool :=
  CpuFeatures.hasAll (_data self) (_data other).

Definition add (featureId : Z) (otherFeatureIds : list Z) (self : t)
  : option t :=
  d ← CpuFeatures.add_pack featureId otherFeatureIds (_data self);
  Some {| _data := d |}.

Definition addIf (condition : bool) (featureId : Z)
    (otherFeatureIds : list Z) (self : t) : option t :=
  d ← CpuFeatures.addIf_pack condition featureId otherFeatureIds (_data self);
  Some {| _data := d |}.

Definition remove (featureId : Z) (otherFeatureIds : list Z) (self : t)
  : option t :=
  d ← CpuFeatures.remove_pack featureId otherFeatureIds (_data self);
  Some {| _data := d |}.

Definition eq (self other : t) : bool :=
  CpuFeatures.eq (_data self) (_data other).

Definition reset (self : t) : t :=
  {| _data := CpuFeatures.reset (_data self) |}.
End CpuFeaturesClass.
End CpuFeaturesClass.

(** ** FixedString *)

(** Modelled from the spec: [FixedString<N>] is declared in [core/string.h],
    which is not among the sources at hand.  It is a "bounded-length string"
    held in a character buffer [str]; read as a C string, [str] ends at its
    first NUL character. *)
Module FixedString.
Definition t := list Byte.byte.

(** A buffer of [N] characters filled with zero bytes. *)
Definition zeroed (N : nat) : t := replicate N Byte.x00.

(** The C string held by the buffer. *)
Fixpoint c_str (str : t) : string :=
  match str with
  | [] => EmptyString
  | c :: rest =>
      if Byte.eqb c Byte.x00 then EmptyString
      else String (Ascii.ascii_of_byte c) (c_str rest)
  end.
End FixedString.

(** ** CpuInfo *)

Module CpuInfo.
Section CpuInfo.
Context {layout : BitWordLayout}.

(** Modelled from the spec: [Arch] and [SubArch] are enumerations declared
    in [core/environment.h], which is not among the sources at hand; a
    value is kept as its integer tag, and the tag of [kUnknown] is zero. *)
Definition Arch := Z.
Definition SubArch := Z.
Definition SubArch_kUnknown : SubArch := 0.

Record t := {
  _arch : Arch;
  _subArch : SubArch;
  _wasDetected : bool;
  _reserved : Z;
  _familyId : Z;
  _modelId : Z;
  _brandId : Z;
  _stepping : Z;
  _processorType : Z;
  _maxLogicalProcessors : Z;
  _cacheLineSize : Z;
  _hwThreadCount : Z;
  _vendor : FixedString.t;
  _brand : FixedString.t;
  _features : CpuFeaturesClass.t
}.

(** [memset] of the whole object to zero: every byte of the object becomes
    zero, so every integer field reads 0, the [bool] reads [false], both
    character buffers hold zero bytes only and every word of the feature
    array is zero. *)
Definition reset (self : t) : t :=
  {| _arch := 0;
     _subArch := 0;
     _wasDetected := bool_of_int 0;
     _reserved := 0;
     _familyId := 0;
     _modelId := 0;
     _brandId := 0;
     _stepping := 0;
     _processorType := 0;
     _maxLogicalProcessors := 0;
     _cacheLineSize := 0;
     _hwThreadCount := 0;
     _vendor := FixedString.zeroed 16;
     _brand := FixedString.zeroed 64;
     _features :=
       {| CpuFeaturesClass._data :=
            {| CpuFeatures._bits := replicate (Z.to_nat CpuFeatures.kNumBitWords) 0 |} |}
  |}.

(** [CpuInfo() { reset(); }]: [uninitialized] is whatever the members hold
    before the body of the constructor runs. *)
Definition ctor (uninitialized : t) : t := reset uninitialized.

Definition initArch (arch : Arch) (subArch : SubArch) (self : t) : t :=
  {| _arch := arch;
     _subArch := subArch;
     _wasDetected := _wasDetected self;
     _reserved := _reserved self;
     _familyId := _familyId self;
     _modelId := _modelId self;
     _brandId := _brandId self;
     _stepping := _stepping self;
     _processorType := _processorType self;
     _maxLogicalProcessors := _maxLogicalProcessors self;
     _cacheLineSize := _cacheLineSize self;
     _hwThreadCount := _hwThreadCount self;
     _vendor := _vendor self;
     _brand := _brand self;
     _features := _features self |}.

(** [initArch(arch)], with the default argument [SubArch::kUnknown]. *)
Definition initArch_default (arch : Arch) (self : t) : t :=
  initArch arch SubArch_kUnknown self.

Definition arch (self : t) : Arch := _arch self.
Definition subArch (self : t) : SubArch := _subArch self.
Definition wasDetected (self : t) : bool := _wasDetected self.
Definition familyId (self : t) : Z := _familyId self.
Definition modelId (self : t) : Z := _modelId self.
Definition brandId (self : t) : Z := _brandId self.
Definition stepping (self : t) : Z := _stepping self.
Definition processorType (self : t) : Z := _processorType self.
Definition maxLogicalProcessors (self : t) : Z := _maxLogicalProcessors self.
Definition cacheLineSize (self : t) : Z := _cacheLineSize self.
Definition hwThreadCount (self : t) : Z := _hwThreadCount self.
Definition vendor (self : t) : string := FixedString.c_str (_vendor self).
Definition brand (self : t) : string := FixedString.c_str (_brand self).
Definition features (self : t) : CpuFeaturesClass.t := _features self.

Definition hasFeature (featureId : Z) (self : t) : option bool :=
  CpuFeaturesClass.has featureId (_features self).

(** The record with its [_features] member replaced. *)
Definition with_features (features' : CpuFeaturesClass.t) (self : t) : t :=
  {| _arch := _arch self;
     _subArch := _subArch self;
     _wasDetected := _wasDetected self;
     _reserved := _reserved self;
     _familyId := _familyId self;
     _modelId := _modelId self;
     _brandId := _brandId self;
     _stepping := _stepping self;
     _processorType := _processorType self;
     _maxLogicalProcessors := _maxLogicalProcessors self;
     _cacheLineSize := _cacheLineSize self;
     _hwThreadCount := _hwThreadCount self;
     _vendor := _vendor self;
     _brand := _brand self;
     _features := features' |}.

(** [addFeature(args...)]: [_features.add(args...)]. *)
Definition addFeature (featureId : Z) (otherFeatureIds : list Z) (self : t)
  : option t :=
  features' ← CpuFeaturesClass.add featureId otherFeatureIds (_features self);
  Some (with_features features' self).

(** [removeFeature(args...)]: [_features.remove(args...)]. *)
Definition removeFeature (featureId : Z) (otherFeatureIds : list Z) (self : t)
  : option t :=
  features' ← CpuFeaturesClass.remove featureId otherFeatureIds (_features self);
  Some (with_features features' self).
End CpuInfo.
End CpuInfo.

(** ** a32::Inst *)

Module a32.
Module Inst.
(** [enum Id : uint32_t], in the order of the source. *)
Definition Id_enumerators : list (string * option Z) :=
  ("kIdNone", Some 0) ::
  map (fun name => (name, None))
  ["kIdAdc"; "kIdAdcs"; "kIdAdd"; "kIdAdds"; "kIdAdr"; "kIdAesd"; 
   "kIdAese"; "kIdAesimc"; "kIdAesmc"; "kIdAnd"; "kIdAnds"; "kIdAsr"; 
   "kIdAsrs"; "kIdB"; "kIdBfc"; "kIdBfi"; "kIdBic"; "kIdBics"; 
   "kIdBkpt"; "kIdBl"; "kIdBlx"; "kIdBx"; "kIdBxj"; "kIdClrex"; 
   "kIdClz"; "kIdCmn"; "kIdCmp"; "kIdCps"; "kIdCpsid"; "kIdCpsie"; 
   "kIdCrc32b"; "kIdCrc32cb"; "kIdCrc32ch"; "kIdCrc32cw"; "kIdCrc32h"; "kIdCrc32w"; 
   "kIdDbg"; "kIdDmb"; "kIdDsb"; "kIdEor"; "kIdEors"; "kIdEret"; 
   "kIdHlt"; "kIdHvc"; "kIdIsb"; "kIdLda"; "kIdLdab"; "kIdLdaex"; 
   "kIdLdaexb"; "kIdLdaexd"; "kIdLdaexh"; "kIdLdah"; "kIdLdm"; "kIdLdmda"; 
   "kIdLdmdb"; "kIdLdmib"; "kIdLdr"; "kIdLdrb"; "kIdLdrbt"; "kIdLdrd"; 
   "kIdLdrex"; "kIdLdrexb"; "kIdLdrexd"; "kIdLdrexh"; "kIdLdrh"; "kIdLdrht"; 
   "kIdLdrsb"; "kIdLdrsbt"; "kIdLdrsh"; "kIdLdrsht"; "kIdLdrt"; "kIdLsl"; 
   "kIdLsls"; "kIdLsr"; "kIdLsrs"; "kIdMcr"; "kIdMcr2"; "kIdMcrr"; 
   "kIdMcrr2"; "kIdMla"; "kIdMlas"; "kIdMls"; "kIdMov"; "kIdMovs"; 
   "kIdMovt"; "kIdMovw"; "kIdMrc"; "kIdMrc2"; "kIdMrrc"; "kIdMrrc2"; 
   "kIdMrs"; "kIdMsr"; "kIdMul"; "kIdMuls"; "kIdMvn"; "kIdMvns"; 
   "kIdNop"; "kIdOrr"; "kIdOrrs"; "kIdPkhbt"; "kIdPkhtb"; "kIdPld"; 
   "kIdPldw"; "kIdPli"; "kIdPop"; "kIdPush"; "kIdQadd"; "kIdQadd16"; 
   "kIdQadd8"; "kIdQasx"; "kIdQdadd"; "kIdQdsub"; "kIdQsax"; "kIdQsub"; 
   "kIdQsub16"; "kIdQsub8"; "kIdRbit"; "kIdRev"; "kIdRev16"; "kIdRevsh"; 
   "kIdRfe"; "kIdRfeda"; "kIdRfedb"; "kIdRfeib"; "kIdRor"; "kIdRors"; 
   "kIdRrx"; "kIdRrxs"; "kIdRsb"; "kIdRsbs"; "kIdRsc"; "kIdRscs"; 
   "kIdSadd16"; "kIdSadd8"; "kIdSasx"; "kIdSbc"; "kIdSbcs"; "kIdSbfx"; 
   "kIdSdiv"; "kIdSel"; "kIdSetend"; "kIdSev"; "kIdSevl"; "kIdSha1c"; 
   "kIdSha1h"; "kIdSha1m"; "kIdSha1p"; "kIdSha1su0"; "kIdSha1su1"; "kIdSha256h"; 
   "kIdSha256h2"; "kIdSha256su0"; "kIdSha256su1"; "kIdShadd16"; "kIdShadd8"; "kIdShasx"; 
   "kIdShsax"; "kIdShsub16"; "kIdShsub8"; "kIdSmc"; "kIdSmlabb"; "kIdSmlabt"; 
   "kIdSmlad"; "kIdSmladx"; "kIdSmlal"; "kIdSmlalbb"; "kIdSmlalbt"; "kIdSmlald"; 
   "kIdSmlaldx"; "kIdSmlals"; "kIdSmlaltb"; "kIdSmlaltt"; "kIdSmlatb"; "kIdSmlatt"; 
   "kIdSmlawb"; "kIdSmlawt"; "kIdSmlsd"; "kIdSmlsdx"; "kIdSmlsld"; "kIdSmlsldx"; 
   "kIdSmmla"; "kIdSmmlar"; "kIdSmmls"; "kIdSmmlsr"; "kIdSmmul"; "kIdSmmulr"; 
   "kIdSmuad"; "kIdSmuadx"; "kIdSmulbb"; "kIdSmulbt"; "kIdSmull"; "kIdSmulls"; 
   "kIdSmultb"; "kIdSmultt"; "kIdSmulwb"; "kIdSmulwt"; "kIdSmusd"; "kIdSmusdx"; 
   "kIdSrs"; "kIdSrsda"; "kIdSrsdb"; "kIdSrsib"; "kIdSsat"; "kIdSsat16"; 
   "kIdSsax"; "kIdSsub16"; "kIdSsub8"; "kIdStl"; "kIdStlb"; "kIdStlex"; 
   "kIdStlexb"; "kIdStlexd"; "kIdStlexh"; "kIdStlh"; "kIdStm"; "kIdStmda"; 
   "kIdStmdb"; "kIdStmib"; "kIdStr"; "kIdStrb"; "kIdStrbt"; "kIdStrd"; 
   "kIdStrex"; "kIdStrexb"; "kIdStrexd"; "kIdStrexh"; "kIdStrh"; "kIdStrht"; 
   "kIdStrt"; "kIdSub"; "kIdSubs"; "kIdSvc"; "kIdSxtab"; "kIdSxtab16"; 
   "kIdSxtah"; "kIdSxtb"; "kIdSxtb16"; "kIdSxth"; "kIdTeq"; "kIdTst"; 
   "kIdUadd16"; "kIdUadd8"; "kIdUasx"; "kIdUbfx"; "kIdUdf"; "kIdUdiv"; 
   "kIdUhadd16"; "kIdUhadd8"; "kIdUhasx"; "kIdUhsax"; "kIdUhsub16"; "kIdUhsub8"; 
   "kIdUmaal"; "kIdUmlal"; "kIdUmlals"; "kIdUmull"; "kIdUmulls"; "kIdUqadd16"; 
   "kIdUqadd8"; "kIdUqasx"; "kIdUqsax"; "kIdUqsub16"; "kIdUqsub8"; "kIdUsad8"; 
   "kIdUsada8"; "kIdUsat"; "kIdUsat16"; "kIdUsax"; "kIdUsub16"; "kIdUsub8"; 
   "kIdUxtab"; "kIdUxtab16"; "kIdUxtah"; "kIdUxtb"; "kIdUxtb16"; "kIdUxth"; 
   "kIdVaba"; "kIdVabal"; "kIdVabd"; "kIdVabdl"; "kIdVabs"; "kIdVacge"; 
   "kIdVacgt"; "kIdVacle"; "kIdVaclt"; "kIdVadd"; "kIdVaddhn"; "kIdVaddl"; 
   "kIdVaddw"; "kIdVand"; "kIdVbic"; "kIdVbif"; "kIdVbit"; "kIdVbsl"; 
   "kIdVcadd"; "kIdVceq"; "kIdVcge"; "kIdVcgt"; "kIdVcle"; "kIdVcls"; 
   "kIdVclt"; "kIdVclz"; "kIdVcmla"; "kIdVcmp"; "kIdVcmpe"; "kIdVcnt"; 
   "kIdVcvt"; "kIdVcvta"; "kIdVcvtb"; "kIdVcvtm"; "kIdVcvtn"; "kIdVcvtp"; 
   "kIdVcvtr"; "kIdVcvtt"; "kIdVdiv"; "kIdVdot"; "kIdVdup"; "kIdVeor"; 
   "kIdVext"; "kIdVfma"; "kIdVfmab"; "kIdVfmal"; "kIdVfmat"; "kIdVfms"; 
   "kIdVfmsl"; "kIdVfnma"; "kIdVfnms"; "kIdVhadd"; "kIdVhsub"; "kIdVins"; 
   "kIdVjcvt"; "kIdVld1"; "kIdVld1r"; "kIdVld2"; "kIdVld2r"; "kIdVld3"; 
   "kIdVld3r"; "kIdVld4"; "kIdVld4r"; "kIdVldr"; "kIdVmax"; "kIdVmaxnm"; 
   "kIdVmin"; "kIdVminnm"; "kIdVmla"; "kIdVmlal"; "kIdVmls"; "kIdVmlsl"; 
   "kIdVmmla"; "kIdVmov"; "kIdVmovl"; "kIdVmovn"; "kIdVmovx"; "kIdVmul"; 
   "kIdVmull"; "kIdVmvn"; "kIdVneg"; "kIdVnmla"; "kIdVnmls"; "kIdVnmul"; 
   "kIdVorn"; "kIdVorr"; "kIdVpadal"; "kIdVpadd"; "kIdVpaddl"; "kIdVpmax"; 
   "kIdVpmin"; "kIdVqabs"; "kIdVqadd"; "kIdVqdmlal"; "kIdVqdmlsl"; "kIdVqdmulh"; 
   "kIdVqdmull"; "kIdVqmovn"; "kIdVqmovun"; "kIdVqneg"; "kIdVqrdmlah"; "kIdVqrdmlsh"; 
   "kIdVqrdmulh"; "kIdVqrshl"; "kIdVqrshrn"; "kIdVqrshrun"; "kIdVqshl"; "kIdVqshlu"; 
   "kIdVqshrn"; "kIdVqshrun"; "kIdVqsub"; "kIdVraddhn"; "kIdVrecpe"; "kIdVrecps"; 
   "kIdVrev16"; "kIdVrev32"; "kIdVrev64"; "kIdVrhadd"; "kIdVrinta"; "kIdVrintm"; 
   "kIdVrintn"; "kIdVrintp"; "kIdVrintr"; "kIdVrintx"; "kIdVrintz"; "kIdVrshl"; 
   "kIdVrshr"; "kIdVrshrn"; "kIdVrsqrte"; "kIdVrsqrts"; "kIdVrsra"; "kIdVrsubhn"; 
   "kIdVsdot"; "kIdVseleq"; "kIdVselge"; "kIdVselgt"; "kIdVselvs"; "kIdVshl"; 
   "kIdVshll"; "kIdVshr"; "kIdVshrn"; "kIdVsli"; "kIdVsmmla"; "kIdVsqrt"; 
   "kIdVsra"; "kIdVsri"; "kIdVst1"; "kIdVst2"; "kIdVst3"; "kIdVst4"; 
   "kIdVstr"; "kIdVsub"; "kIdVsubhn"; "kIdVsubl"; "kIdVsubw"; "kIdVsudot"; 
   "kIdVswp"; "kIdVtbl"; "kIdVtbx"; "kIdVtrn"; "kIdVtst"; "kIdVudot"; 
   "kIdVummla"; "kIdVusdot"; "kIdVusmmla"; "kIdVuzp"; "kIdVzip"; "kIdWfe"; 
   "kIdWfi"; "kIdYield"; "_kIdCount"]%string.

Definition Id : list (string * Z) :=
  Eval vm_compute in enum_values Id_enumerators 0.

Definition Id_value (name : string) : option Z := enum_lookup Id name.

Definition kIdNone : Z :=
  Eval vm_compute in default 0 (Id_value "kIdNone").
Definition _kIdCount : Z :=
  Eval vm_compute in default 0 (Id_value "_kIdCount").

(** [InstId] is [uint32_t]: an argument is converted to it by the call. *)
Definition isDefinedId (instId : Z) : bool :=
  uint32_t instId <? _kIdCount.
End Inst.
End a32.

(** ** The set of features a [Data] stands for *)

Section FeatureBits.
Context {layout : BitWordLayout}.

(** A feature id of the bit-set: an unsigned value below [kMaxFeatures]. *)
Definition feature_id (f : Z) : Prop := 0 <= f < CpuFeatures.kMaxFeatures.

(** Bit [f mod kBitWordSizeInBits] of word [f / kBitWordSizeInBits]: the
    bit that stands for feature [f]. *)
Definition bit_of (self : CpuFeatures.Data) (f : Z) : bool :=
  Z.testbit
    (nth (Z.to_nat (f / kBitWordSizeInBits)) (CpuFeatures._bits self) 0)
    (f mod kBitWordSizeInBits).

(** The test of [hasAll] at word [i]: [(self[i] & other[i]) == other[i]]. *)
Definition word_included (self other : CpuFeatures.Data) (i : nat) : Prop :=
  forall a b,
    CpuFeatures._bits self !! i = Some a ->
    CpuFeatures._bits other !! i = Some b ->
    Z.land a b = b.

(** The feature sets that the public mutations [add], [addIf] and [remove]
    produce from the zero-initialised one, when every feature id passed to
    them satisfies [allowed]. *)
Inductive reachable (allowed : Z -> Prop) : CpuFeatures.Data -> Prop :=
| reachable_zero :
    reachable allowed CpuFeatures.Data_zero
| reachable_add f rest self self' :
    reachable allowed self -> Forall allowed (f :: rest) ->
    CpuFeatures.add_pack f rest self = Some self' ->
    reachable allowed self'
| reachable_addIf c f rest self self' :
    reachable allowed self -> Forall allowed (f :: rest) ->
    CpuFeatures.addIf_pack c f rest self = Some self' ->
    reachable allowed self'
| reachable_remove f rest self self' :
    reachable allowed self -> Forall allowed (f :: rest) ->
    CpuFeatures.remove_pack f rest self = Some self' ->
    reachable allowed self'.

(** An operation on one feature id, other than id 0, that leaves bit 0 as
    it is. *)
Definition keeps_bit0
    (op : Z -> CpuFeatures.Data -> option CpuFeatures.Data) : Prop :=
  forall f self self',
    uint32_t f <> 0 -> CpuFeatures.Data_wf self -> op f self = Some self' ->
    CpuFeatures.Data_wf self' /\ bit_of self' 0 = bit_of self 0.
End FeatureBits.


(** * Properties *)

(** ** Words and bits *)

Section WordFacts.
Context {layout : BitWordLayout}.
Local Abbreviation W := kBitWordSizeInBits.
Import CpuFeatures.

Lemma width_pos : 0 < W.
Proof. destruct kBitWordSizeInBits_cases as [-> | ->]; lia. Qed.

Lemma numwords_width : kNumBitWords * W = 256.
Proof.
  unfold kNumBitWords, kMaxFeatures.
  destruct kBitWordSizeInBits_cases as [-> | ->]; reflexivity.
Qed.

Lemma numwords_pos : 0 < kNumBitWords.
Proof. pose proof numwords_width. pose proof width_pos. nia. Qed.

Lemma uint32_t_small f : 0 <= f < 2 ^ 32 -> uint32_t f = f.
Proof. intros Hf. unfold uint32_t. now apply Z.mod_small. Qed.

Lemma feature_id_uint32_t f : feature_id f -> uint32_t f = f.
Proof.
  unfold feature_id, kMaxFeatures. intros Hf.
  apply uint32_t_small. change (2 ^ 32) with 4294967296. lia.
Qed.

Lemma feature_id_assert f :
  feature_id f -> ASMJIT_ASSERT (uint32_t f <? kMaxFeatures) = Some tt.
Proof.
  intros Hf. rewrite (feature_id_uint32_t f Hf).
  destruct Hf as [_ Hf]. apply Z.ltb_lt in Hf. now rewrite Hf.
Qed.

Lemma feature_id_idx f : feature_id f -> 0 <= f / W < kNumBitWords.
Proof.
  unfold feature_id, kMaxFeatures. intros Hf.
  pose proof width_pos. pose proof numwords_width. split.
  - apply Z.div_pos; lia.
  - apply Z.div_lt_upper_bound; lia.
Qed.

Lemma feature_id_bit f : 0 <= f mod W < W.
Proof. apply Z.mod_pos_bound, width_pos. Qed.

(** A feature id is its word index and its bit index. *)
Lemma feature_id_split f g :
  f / W = g / W -> f mod W = g mod W -> f = g.
Proof.
  intros Hq Hr. pose proof width_pos.
  rewrite (Z.div_mod f W), (Z.div_mod g W) by lia. now rewrite Hq, Hr.
Qed.

Lemma feature_id_join i k :
  0 <= i < kNumBitWords -> 0 <= k < W ->
  feature_id (i * W + k) /\ (i * W + k) / W = i /\ (i * W + k) mod W = k.
Proof.
  intros Hi Hk. pose proof numwords_width.
  split; [| split].
  - unfold feature_id, kMaxFeatures. nia.
  - rewrite Z.div_add_l by lia. rewrite Z.div_small by lia. lia.
  - rewrite Z.add_comm, Z.mod_add by lia. now apply Z.mod_small.
Qed.

Lemma bool_of_int_testbit w b :
  0 <= b -> bool_of_int (Z.land (Support.shr w b) 1) = Z.testbit w b.
Proof.
  intros Hb. unfold bool_of_int, Support.shr.
  change 1 with (Z.ones 1) at 1. rewrite Z.land_ones by lia.
  rewrite Z.testbit_odd. change (2 ^ 1) with 2.
  rewrite Zmod_odd. now destruct (Z.odd (Z.shiftr w b)).
Qed.

Lemma is_BitWord_high w k :
  Support.is_BitWord w -> W <= k -> Z.testbit w k = false.
Proof.
  unfold Support.is_BitWord. intros Hw Hk. pose proof width_pos.
  rewrite <- (Z.mod_small w (2 ^ W)) by lia.
  apply Z.mod_pow2_bits_high. lia.
Qed.

Lemma BitWord_is_BitWord x : Support.is_BitWord (Support.BitWord x).
Proof.
  unfold Support.is_BitWord, Support.BitWord. pose proof width_pos.
  apply Z.mod_pos_bound. apply Z.pow_pos_nonneg; lia.
Qed.

Lemma BitWord_testbit x k :
  0 <= k -> Z.testbit (Support.BitWord x) k = (k <? W) && Z.testbit x k.
Proof.
  intros Hk. unfold Support.BitWord. pose proof width_pos.
  destruct (Z.ltb_spec k W).
  - now rewrite Z.mod_pow2_bits_low by lia.
  - now rewrite Z.mod_pow2_bits_high by lia.
Qed.

(** [BitWord(condition) << bit] for a bit index within the word. *)
Lemma mask_testbit (c : bool) b k :
  0 <= b < W -> 0 <= k ->
  Z.testbit (Support.shl (Support.BitWord (int_of_bool c)) b) k
  = c && (k =? b).
Proof.
  intros Hb Hk. unfold Support.shl. rewrite BitWord_testbit by lia.
  assert (Support.BitWord (int_of_bool c) = int_of_bool c) as ->.
  { unfold Support.BitWord. apply Z.mod_small.
    assert (2 ^ 1 <= 2 ^ W) by (apply Z.pow_le_mono_r; lia).
    destruct c; simpl in *; lia. }
  destruct c; simpl int_of_bool.
  - rewrite Z.shiftl_1_l, Z.pow2_bits_eqb by lia.
    rewrite (Z.eqb_sym b k). simpl.
    destruct (Z.eqb_spec k b), (Z.ltb_spec k W); simpl; auto; lia.
  - rewrite Z.shiftl_0_l, Z.bits_0. now rewrite andb_false_r.
Qed.

Lemma land_is_BitWord w m :
  Support.is_BitWord w -> 0 <= m -> Support.is_BitWord (Z.land w m).
Proof.
  unfold Support.is_BitWord. intros Hw Hm. pose proof width_pos.
  split; [apply Z.land_nonneg; lia |].
  destruct (Z.eq_dec (Z.land w m) 0) as [-> | Hnz]; [lia |].
  apply Z.log2_lt_pow2; [ pose proof (Z.land_nonneg w m); lia |].
  eapply Z.le_lt_trans; [apply Z.log2_land; lia |].
  destruct (Z.eq_dec w 0) as [-> | Hw0].
  - rewrite Z.land_0_l in Hnz. lia.
  - apply Z.min_lt_iff. left. apply Z.log2_lt_pow2; lia.
Qed.

Lemma lor_is_BitWord w m :
  Support.is_BitWord w -> Support.is_BitWord m ->
  Support.is_BitWord (Z.lor w m).
Proof.
  unfold Support.is_BitWord. intros Hw Hm. pose proof width_pos.
  split; [apply Z.lor_nonneg; lia |].
  destruct (Z.eq_dec (Z.lor w m) 0) as [-> | Hnz]; [lia |].
  apply Z.log2_lt_pow2; [ pose proof (Z.lor_nonneg w m); lia |].
  rewrite Z.log2_lor by lia.
  apply Z.max_lub_lt.
  - destruct (Z.eq_dec w 0) as [-> | ?]; [simpl; lia |].
    apply Z.log2_lt_pow2; lia.
  - destruct (Z.eq_dec m 0) as [-> | ?]; [simpl; lia |].
    apply Z.log2_lt_pow2; lia.
Qed.
End WordFacts.

(** ** The feature set as a set of bits *)

Section DataFacts.
Context {layout : BitWordLayout}.
Local Abbreviation W := kBitWordSizeInBits.
Import CpuFeatures.

Lemma Data_zero_wf : Data_wf Data_zero.
Proof.
  split; simpl.
  - apply length_replicate.
  - apply Forall_replicate. unfold Support.is_BitWord.
    pose proof width_pos. split; [lia | apply Z.pow_pos_nonneg; lia].
Qed.

Lemma bit_of_Data_zero f : bit_of Data_zero f = false.
Proof.
  unfold bit_of. simpl. rewrite nth_lookup.
  destruct (replicate _ 0 !! _) as [w |] eqn:E; simpl.
  - apply lookup_replicate in E as [-> _]. apply Z.bits_0.
  - apply Z.bits_0.
Qed.

(** The word that holds the bit of a feature id. *)
Lemma Data_wf_lookup self f :
  Data_wf self -> feature_id f ->
  exists w, _bits self !! Z.to_nat (f / W) = Some w /\
            Support.is_BitWord w /\
            bit_of self f = Z.testbit w (f mod W).
Proof.
  intros [Hlen Hall] Hf. pose proof (feature_id_idx f Hf) as Hi.
  destruct (lookup_lt_is_Some_2 (_bits self) (Z.to_nat (f / W))) as [w Hw];
    [lia |].
  exists w. split; [exact Hw | split].
  - eapply Forall_lookup_1; eauto.
  - unfold bit_of. now rewrite nth_lookup, Hw.
Qed.

Lemma has_bit_of self f :
  Data_wf self -> feature_id f -> has f self = Some (bit_of self f).
Proof.
  intros Hwf Hf. unfold has.
  rewrite (feature_id_assert f Hf), (feature_id_uint32_t f Hf). simpl.
  destruct (Data_wf_lookup self f Hwf Hf) as (w & -> & _ & ->). simpl.
  rewrite bool_of_int_testbit; [reflexivity | apply feature_id_bit].
Qed.

(** Two well-formed feature sets with the same bits are the same. *)
Lemma Data_ext self other :
  Data_wf self -> Data_wf other ->
  (forall f, feature_id f -> bit_of self f = bit_of other f) ->
  self = other.
Proof.
  intros [Hl1 Ha1] [Hl2 Ha2] Hbits.
  destruct self as [l1], other as [l2]. simpl in *. f_equal.
  apply list_eq. intros i.
  destruct (decide (i < Z.to_nat kNumBitWords)%nat) as [Hi | Hi].
  - destruct (lookup_lt_is_Some_2 l1 i) as [a Ha]; [lia |].
    destruct (lookup_lt_is_Some_2 l2 i) as [b Hb]; [lia |].
    rewrite Ha, Hb. f_equal.
    pose proof (Forall_lookup_1 _ _ _ _ Ha1 Ha) as Hra.
    pose proof (Forall_lookup_1 _ _ _ _ Ha2 Hb) as Hrb.
    apply Z.bits_inj'. intros k Hk.
    destruct (Z.lt_ge_cases k W) as [Hlt | Hge].
    + destruct (feature_id_join (Z.of_nat i) k) as (Hf & Hq & Hr); [lia | lia |].
      specialize (Hbits _ Hf). unfold bit_of in Hbits. simpl in Hbits.
      rewrite Hq, Hr, Nat2Z.id, !nth_lookup, Ha, Hb in Hbits. exact Hbits.
    + now rewrite !is_BitWord_high.
  - rewrite !lookup_ge_None_2 by lia. reflexivity.
Qed.

(** Replacing the word of feature [f] by [w']: the bits of the other
    words stay, the bits of this word are those of [w']. *)
Lemma store_word self f w' :
  Data_wf self -> feature_id f -> Support.is_BitWord w' ->
  let self' := {| _bits := <[Z.to_nat (f / W) := w']> (_bits self) |} in
  Data_wf self' /\
  forall g, feature_id g ->
    bit_of self' g =
    if decide (g / W = f / W) then Z.testbit w' (g mod W) else bit_of self g.
Proof.
  intros [Hlen Hall] Hf Hw'. simpl. split.
  - split; simpl.
    + now rewrite length_insert.
    + apply Forall_insert; assumption.
  - intros g Hg. unfold bit_of. simpl.
    pose proof (feature_id_idx f Hf). pose proof (feature_id_idx g Hg).
    rewrite !nth_lookup. case_decide as Hq.
    + rewrite Hq, list_lookup_insert_eq by lia. reflexivity.
    + rewrite list_lookup_insert_ne by lia. reflexivity.
Qed.

Lemma same_feature f g :
  (if decide (g / W = f / W) then (g mod W =? f mod W) else false) = (g =? f).
Proof.
  case_decide as Hq.
  - destruct (Z.eqb_spec (g mod W) (f mod W)) as [Hr | Hr].
    + symmetry. apply Z.eqb_eq. now apply feature_id_split.
    + symmetry. apply Z.eqb_neq. congruence.
  - symmetry. apply Z.eqb_neq. congruence.
Qed.

Lemma addIf_bits c self f :
  Data_wf self -> feature_id f ->
  exists self', addIf c f self = Some self' /\ Data_wf self' /\
    forall g, feature_id g ->
      bit_of self' g = (c && (g =? f)) || bit_of self g.
Proof.
  intros Hwf Hf. unfold addIf.
  rewrite (feature_id_assert f Hf), (feature_id_uint32_t f Hf). simpl.
  destruct (Data_wf_lookup self f Hwf Hf) as (w & Hlk & Hw & _).
  rewrite Hlk. simpl.
  eexists. split; [reflexivity |].
  pose proof (feature_id_bit f) as Hb.
  destruct (store_word self f
    (Z.lor w (Support.shl (Support.BitWord (int_of_bool c)) (f mod W))) Hwf Hf)
    as [Hwf' Hbits].
  { apply lor_is_BitWord; [assumption | apply BitWord_is_BitWord]. }
  split; [exact Hwf' |].
  intros g Hg. rewrite (Hbits g Hg).
  rewrite <- (same_feature f g). case_decide as Hq.
  - pose proof (feature_id_bit g) as Hgb.
    rewrite Z.lor_spec, mask_testbit by lia.
    unfold bit_of. rewrite Hq, nth_lookup, Hlk. apply orb_comm.
  - now rewrite andb_false_r.
Qed.

Lemma add_addIf self f : add f self = addIf true f self.
Proof. reflexivity. Qed.

Lemma add_bits self f :
  Data_wf self -> feature_id f ->
  exists self', add f self = Some self' /\ Data_wf self' /\
    forall g, feature_id g -> bit_of self' g = (g =? f) || bit_of self g.
Proof. intros Hwf Hf. rewrite add_addIf. now apply addIf_bits. Qed.

Lemma remove_bits self f :
  Data_wf self -> feature_id f ->
  exists self', remove f self = Some self' /\ Data_wf self' /\
    forall g, feature_id g -> bit_of self' g = negb (g =? f) && bit_of self g.
Proof.
  intros Hwf Hf. unfold remove.
  rewrite (feature_id_assert f Hf), (feature_id_uint32_t f Hf). simpl.
  destruct (Data_wf_lookup self f Hwf Hf) as (w & Hlk & Hw & _).
  rewrite Hlk. simpl.
  eexists. split; [reflexivity |].
  pose proof (feature_id_bit f) as Hb.
  destruct (store_word self f
    (Z.land w (Support.bit_not (Support.shl (Support.BitWord 1) (f mod W))))
    Hwf Hf) as [Hwf' Hbits].
  { apply land_is_BitWord; [assumption |].
    apply (BitWord_is_BitWord (Z.lnot _)). }
  split; [exact Hwf' |].
  intros g Hg. rewrite (Hbits g Hg).
  rewrite <- (same_feature f g). case_decide as Hq.
  - pose proof (feature_id_bit g) as Hgb.
    rewrite Z.land_spec. unfold Support.bit_not.
    rewrite BitWord_testbit, Z.lnot_spec by lia.
    rewrite (mask_testbit true) by lia. simpl.
    destruct (Z.ltb_spec (g mod W) W); [| lia].
    unfold bit_of. rewrite Hq, nth_lookup, Hlk. simpl. apply andb_comm.
  - reflexivity.
Qed.
End DataFacts.

(** ** add, remove and has *)

Section AddRemove.
Context {layout : BitWordLayout}.
Import CpuFeatures.

Lemma add_present self f :
  Data_wf self -> feature_id f ->
  has f self = Some true -> add f self = Some self.
Proof.
  intros Hwf Hf Hhas. rewrite has_bit_of in Hhas by assumption.
  destruct (add_bits self f Hwf Hf) as (self' & -> & Hwf' & Hbits).
  f_equal. apply Data_ext; try assumption.
  intros g Hg. rewrite (Hbits g Hg).
  destruct (Z.eqb_spec g f) as [-> | _]; simpl; congruence.
Qed.

Lemma remove_absent self f :
  Data_wf self -> feature_id f ->
  has f self = Some false -> remove f self = Some self.
Proof.
  intros Hwf Hf Hhas. rewrite has_bit_of in Hhas by assumption.
  destruct (remove_bits self f Hwf Hf) as (self' & -> & Hwf' & Hbits).
  f_equal. apply Data_ext; try assumption.
  intros g Hg. rewrite (Hbits g Hg).
  destruct (Z.eqb_spec g f) as [-> | _]; simpl; congruence.
Qed.

Lemma addIf_false self f :
  Data_wf self -> feature_id f -> addIf false f self = Some self.
Proof.
  intros Hwf Hf.
  destruct (addIf_bits false self f Hwf Hf) as (self' & -> & Hwf' & Hbits).
  f_equal. apply Data_ext; [assumption | assumption |].
  intros g Hg. now rewrite (Hbits g Hg).
Qed.

(** C1: for every feature id [f] below 256, the zero-initialised set
    does not have [f]; from any feature set, [add f] succeeds and gives a
    set that has [f], a second [add f] changes nothing, a following
    [remove f] gives a set that does not have [f], and a second
    [remove f] changes nothing; adding an id that is already set and
    removing an id that is already clear leave the set unchanged. *)
Theorem add_remove_has (f : Z) :
  feature_id f ->
  has f Data_zero = Some false /\
  (forall self, Data_wf self ->
     exists s1 s2,
       add f self = Some s1 /\ has f s1 = Some true /\
       add f s1 = Some s1 /\
       remove f s1 = Some s2 /\ has f s2 = Some false /\
       remove f s2 = Some s2) /\
  (forall self, Data_wf self ->
     has f self = Some true -> add f self = Some self) /\
  (forall self, Data_wf self ->
     has f self = Some false -> remove f self = Some self).
Proof.
  intros Hf. split; [| split; [| split]].
  - rewrite has_bit_of by (apply Data_zero_wf || assumption).
    now rewrite bit_of_Data_zero.
  - intros self Hwf.
    destruct (add_bits self f Hwf Hf) as (s1 & Hadd & Hwf1 & Hb1).
    destruct (remove_bits s1 f Hwf1 Hf) as (s2 & Hrem & Hwf2 & Hb2).
    assert (has f s1 = Some true) as Hhas1.
    { rewrite has_bit_of, (Hb1 f Hf), Z.eqb_refl by assumption. reflexivity. }
    assert (has f s2 = Some false) as Hhas2.
    { rewrite has_bit_of, (Hb2 f Hf), Z.eqb_refl by assumption. reflexivity. }
    exists s1, s2. repeat split; try assumption.
    + now apply add_present.
    + now apply remove_absent.
  - intros self Hwf. now apply add_present.
  - intros self Hwf. now apply remove_absent.
Qed.

(** C10: for two distinct feature ids [f] and [g] below 256, each of
    [add f], [remove f] and [addIf c f] succeeds and leaves the answer of
    [has g] as it was. *)
Theorem mutation_other_bit (f g : Z) (self : Data) :
  feature_id f -> feature_id g -> f <> g -> Data_wf self ->
  (exists s', add f self = Some s' /\ has g s' = has g self) /\
  (exists s', remove f self = Some s' /\ has g s' = has g self) /\
  (forall c, exists s', addIf c f self = Some s' /\ has g s' = has g self).
Proof.
  intros Hf Hg Hne Hwf.
  assert ((g =? f) = false) as Hgf by (apply Z.eqb_neq; congruence).
  split; [| split].
  - destruct (add_bits self f Hwf Hf) as (s' & Hadd & Hwf' & Hb).
    exists s'. split; [assumption |].
    now rewrite !has_bit_of, (Hb g Hg), Hgf by assumption.
  - destruct (remove_bits self f Hwf Hf) as (s' & Hrem & Hwf' & Hb).
    exists s'. split; [assumption |].
    now rewrite !has_bit_of, (Hb g Hg), Hgf by assumption.
  - intros c.
    destruct (addIf_bits c self f Hwf Hf) as (s' & Hadd & Hwf' & Hb).
    exists s'. split; [assumption |].
    now rewrite !has_bit_of, (Hb g Hg), Hgf, andb_false_r by assumption.
Qed.
End AddRemove.

(** ** addIf and hasAny over a parameter pack *)

Section Packs.
Context {layout : BitWordLayout}.
Import CpuFeatures.

Lemma bool_decide_elem_of_cons (g f : Z) (l : list Z) :
  bool_decide (g ∈ f :: l) = (g =? f) || bool_decide (g ∈ l).
Proof.
  destruct (Z.eqb_spec g f) as [-> | Hne]; simpl.
  - apply bool_decide_eq_true. apply elem_of_cons. now left.
  - apply bool_decide_ext. rewrite elem_of_cons. tauto.
Qed.

Lemma addIf_pack_bits c rest : forall f self,
  Data_wf self -> Forall feature_id (f :: rest) ->
  exists self', addIf_pack c f rest self = Some self' /\ Data_wf self' /\
    forall g, feature_id g ->
      bit_of self' g = (c && bool_decide (g ∈ f :: rest)) || bit_of self g.
Proof.
  induction rest as [| g0 rest IH]; intros f self Hwf Hids;
    apply Forall_cons in Hids as [Hf Hrest]; simpl.
  - destruct (addIf_bits c self f Hwf Hf) as (s' & Hs' & Hwf' & Hb).
    exists s'. split; [assumption | split; [assumption |]].
    intros g Hg. rewrite (Hb g Hg), bool_decide_elem_of_cons.
    rewrite bool_decide_eq_false_2 by apply not_elem_of_nil.
    now rewrite orb_false_r.
  - destruct (addIf_bits c self f Hwf Hf) as (s1 & -> & Hwf1 & Hb1). simpl.
    destruct (IH g0 s1 Hwf1 Hrest) as (s' & Hs' & Hwf' & Hb).
    exists s'. split; [assumption | split; [assumption |]].
    intros g Hg. rewrite (Hb g Hg), (Hb1 g Hg).
    rewrite (bool_decide_elem_of_cons g f).
    destruct c, (g =? f), (bool_decide (g ∈ g0 :: rest)), (bit_of self g);
      reflexivity.
Qed.

(** C4: for every feature set and every pack of feature ids below 256,
    [addIf(false, ids...)] succeeds and returns the set it was given,
    whatever the number of ids; [addIf(true, ids...)] succeeds and gives a
    set that has every id of the pack. *)
Theorem addIf_condition (f : Z) (rest : list Z) (self : Data) :
  Data_wf self -> Forall feature_id (f :: rest) ->
  addIf_pack false f rest self = Some self /\
  exists self', addIf_pack true f rest self = Some self' /\
    forall g, g ∈ f :: rest -> has g self' = Some true.
Proof.
  intros Hwf Hids. split.
  - destruct (addIf_pack_bits false rest f self Hwf Hids)
      as (s' & -> & Hwf' & Hb).
    f_equal. apply Data_ext; [assumption | assumption |].
    intros g Hg. now rewrite (Hb g Hg).
  - destruct (addIf_pack_bits true rest f self Hwf Hids)
      as (s' & Hs' & Hwf' & Hb).
    exists s'. split; [assumption |].
    intros g Hin.
    assert (feature_id g) as Hg.
    { rewrite Forall_forall in Hids. now apply Hids. }
    rewrite has_bit_of, (Hb g Hg) by assumption.
    now rewrite bool_decide_eq_true_2.
Qed.

Lemma bool_of_int_lor (a b : bool) :
  bool_of_int (Z.lor (int_of_bool a) (int_of_bool b)) = a || b.
Proof. now destruct a, b. Qed.

Lemma hasAny_bits rest : forall f self,
  Data_wf self -> Forall feature_id (f :: rest) ->
  hasAny f rest self = Some (foldr orb false (map (bit_of self) (f :: rest))).
Proof.
  induction rest as [| g0 rest IH]; intros f self Hwf Hids;
    apply Forall_cons in Hids as [Hf Hrest]; simpl.
  - rewrite has_bit_of by assumption. now rewrite orb_false_r.
  - rewrite has_bit_of by assumption. simpl.
    rewrite (IH g0 self Hwf Hrest). simpl.
    now rewrite bool_of_int_lor.
Qed.

Lemma has_tests self (ids : list Z) :
  Data_wf self -> Forall feature_id ids ->
  Forall2 (fun g t => has g self = Some t) ids (map (bit_of self) ids).
Proof.
  intros Hwf Hids. induction Hids as [| g ids Hg _ IH]; simpl.
  - constructor.
  - constructor; [now apply has_bit_of | exact IH].
Qed.

(** C5: on every feature set, [hasAny(a, b)] for two feature ids below
    256 returns [has(a) || has(b)]; for any non-empty pack of ids,
    [hasAny] returns the logical OR of the [has] tests of the ids. *)
Theorem hasAny_or (self : Data) :
  Data_wf self ->
  (forall a b, feature_id a -> feature_id b ->
     exists ha hb, has a self = Some ha /\ has b self = Some hb /\
                   hasAny a [b] self = Some (ha || hb)) /\
  (forall f rest, Forall feature_id (f :: rest) ->
     exists tests,
       Forall2 (fun g t => has g self = Some t) (f :: rest) tests /\
       hasAny f rest self = Some (foldr orb false tests)).
Proof.
  intros Hwf. split.
  - intros a b Ha Hb. exists (bit_of self a), (bit_of self b).
    rewrite !has_bit_of by assumption. split; [reflexivity | split; [reflexivity |]].
    assert (Forall feature_id [a; b]) as Hab.
    { do 2 (apply Forall_cons_2; [assumption |]). apply Forall_nil_2. }
    rewrite hasAny_bits by assumption.
    simpl. now rewrite orb_false_r.
  - intros f rest Hids. exists (map (bit_of self) (f :: rest)). split.
    + now apply has_tests.
    + now apply hasAny_bits.
Qed.
End Packs.

(** ** hasAll *)

Section HasAll.
Context {layout : BitWordLayout}.
Local Abbreviation W := kBitWordSizeInBits.
Import CpuFeatures.

Lemma uint32_t_int_of_bool b : uint32_t (int_of_bool b) = int_of_bool b.
Proof. now destruct b. Qed.

Lemma land_int_of_bool a b :
  Z.land (int_of_bool a) (int_of_bool b) = int_of_bool (a && b).
Proof. now destruct a, b. Qed.

Lemma bool_of_int_of_bool b : bool_of_int (int_of_bool b) = b.
Proof. now destruct b. Qed.

(** The loop keeps [result] in {0, 1}; it ends with 1 iff it started with
    1 and every visited word passed the test. *)
Lemma hasAll_loop_spec self other ixs : forall r : bool,
  Data_wf self -> Data_wf other ->
  Forall (fun i => (i < Z.to_nat kNumBitWords)%nat) ixs ->
  exists r' : bool,
    hasAll_loop ixs (int_of_bool r) self other = Some (int_of_bool r') /\
    (r' = true <-> r = true /\ Forall (word_included self other) ixs).
Proof.
  induction ixs as [| i ixs IH]; intros r Hs Ho Hixs; simpl.
  - exists r. split; [reflexivity |]. split; [intros -> | tauto].
    split; [reflexivity | constructor].
  - apply Forall_cons in Hixs as [Hi Hixs].
    destruct Hs as [Hls Has], Ho as [Hlo Hao].
    destruct (lookup_lt_is_Some_2 (_bits self) i) as [a Ha]; [lia |].
    destruct (lookup_lt_is_Some_2 (_bits other) i) as [b Hb]; [lia |].
    rewrite Ha, Hb. simpl.
    rewrite uint32_t_int_of_bool, land_int_of_bool.
    destruct (IH (r && (Z.land a b =? b))) as (r' & Hloop & Hr');
      [split; assumption | split; assumption | assumption |].
    exists r'. split; [exact Hloop |].
    rewrite Hr', andb_true_iff, Z.eqb_eq, Forall_cons.
    unfold word_included at 2. split.
    + intros [[Hr Hab] Hrest]. repeat split; try assumption.
      intros a' b' Ha' Hb'. congruence.
    + intros [Hr [Hab Hrest]]. repeat split; try assumption.
      now apply Hab.
Qed.

Lemma hasAll_words self other :
  Data_wf self -> Data_wf other ->
  exists r, hasAll self other = Some r /\
    (r = true <->
     forall i, (i < Z.to_nat kNumBitWords)%nat -> word_included self other i).
Proof.
  intros Hs Ho. unfold hasAll.
  destruct (hasAll_loop_spec self other (seq 0 (Z.to_nat kNumBitWords)) true
              Hs Ho) as (r & Hloop & Hr).
  { apply Forall_seq. intros i Hi. lia. }
  change (int_of_bool true) with 1 in Hloop. rewrite Hloop.
  simpl. rewrite bool_of_int_of_bool. exists r. split; [reflexivity |].
  rewrite Hr, Forall_seq. split.
  - intros [_ Hall] i Hi. apply Hall. lia.
  - intros Hall. split; [reflexivity |]. intros i Hi. apply Hall. lia.
Qed.

(** The word-by-word test is inclusion of the sets of features. *)
Lemma word_included_bits self other :
  Data_wf self -> Data_wf other ->
  (forall i, (i < Z.to_nat kNumBitWords)%nat -> word_included self other i)
  <->
  (forall f, feature_id f -> bit_of other f = true -> bit_of self f = true).
Proof.
  intros Hs Ho. split.
  - intros Hwords f Hf Hof.
    destruct (Data_wf_lookup self f Hs Hf) as (a & Ha & _ & Hsa).
    destruct (Data_wf_lookup other f Ho Hf) as (b & Hb & _ & Hob).
    pose proof (feature_id_idx f Hf) as Hi.
    assert (Z.land a b = b) as Hab.
    { apply (Hwords (Z.to_nat (f / W))); [lia | assumption | assumption]. }
    rewrite Hsa. rewrite Hob, <- Hab, Z.land_spec in Hof.
    now apply andb_true_iff in Hof as [? _].
  - intros Hbits i Hi a b Ha Hb.
    destruct Hs as [_ Has], Ho as [_ Hao].
    pose proof (Forall_lookup_1 _ _ _ _ Hao Hb) as Hrb.
    apply Z.bits_inj'. intros k Hk. rewrite Z.land_spec.
    destruct (Z.lt_ge_cases k W) as [Hlt | Hge].
    + destruct (feature_id_join (Z.of_nat i) k) as (Hf & Hq & Hr);
        [lia | lia |].
      specialize (Hbits _ Hf). unfold bit_of in Hbits.
      rewrite Hq, Hr, Nat2Z.id, !nth_lookup, Ha, Hb in Hbits. simpl in Hbits.
      destruct (Z.testbit b k); [| apply andb_false_r].
      now rewrite Hbits.
    + rewrite (is_BitWord_high b k) by assumption. apply andb_false_r.
Qed.

Lemma aggregate_Or_zero (a : list Z) : forall initial,
  Support.aggregate_Or a initial = 0 ->
  initial = 0 /\ Forall (fun w => w = 0) a.
Proof.
  unfold Support.aggregate_Or.
  induction a as [| w a IH]; intros initial Hfold; simpl in *.
  - split; [assumption | constructor].
  - apply IH in Hfold as [Hor Hrest].
    apply Z.lor_eq_0_iff in Hor as [-> ->].
    split; [reflexivity | now constructor].
Qed.

(** C2: [hasAll(other)] returns true iff [(self[w] & other[w]) ==
    other[w]] at every storage word index [w], that is iff every feature
    of [other] is a feature of [self]; it returns true when [other] is
    empty (in particular when it is the zero-initialised set), and when
    [other] is [self]. *)
Theorem hasAll_subset (self other : Data) :
  Data_wf self -> Data_wf other ->
  (exists r, hasAll self other = Some r /\
     (r = true <->
      forall w a b, (w < Z.to_nat kNumBitWords)%nat ->
        _bits self !! w = Some a -> _bits other !! w = Some b ->
        Z.land a b = b) /\
     (r = true <->
      forall f, feature_id f ->
        has f other = Some true -> has f self = Some true)) /\
  (empty other = true -> hasAll self other = Some true) /\
  hasAll self Data_zero = Some true /\
  hasAll self self = Some true.
Proof.
  intros Hs Ho. split; [| split; [| split]].
  - destruct (hasAll_words self other Hs Ho) as (r & Hr & Hiff).
    exists r. split; [exact Hr | split].
    + rewrite Hiff. unfold word_included. split.
      * intros Hw w a b Hlt Ha Hb. exact (Hw w Hlt a b Ha Hb).
      * intros Hw i Hi a b Ha Hb. exact (Hw i a b Hi Ha Hb).
    + rewrite Hiff, (word_included_bits self other Hs Ho).
      split; intros Hsub f Hf.
      * rewrite !has_bit_of by assumption. intros [= Hof]. f_equal. auto.
      * intros Hof. specialize (Hsub f Hf).
        rewrite !has_bit_of in Hsub by assumption.
        rewrite Hof in Hsub. specialize (Hsub eq_refl). congruence.
  - intros Hempty. unfold empty in Hempty. apply Z.eqb_eq in Hempty.
    apply aggregate_Or_zero in Hempty as [_ Hzero].
    destruct (hasAll_words self other Hs Ho) as (r & -> & Hiff).
    f_equal. apply Hiff. intros i Hi a b Ha Hb.
    rewrite (Forall_lookup_1 _ _ _ _ Hzero Hb). apply Z.land_0_r.
  - destruct (hasAll_words self Data_zero Hs Data_zero_wf) as (r & -> & Hiff).
    f_equal. apply Hiff. intros i Hi a b Ha Hb. simpl in Hb.
    apply lookup_replicate in Hb as [-> _]. apply Z.land_0_r.
  - destruct (hasAll_words self self Hs Hs) as (r & -> & Hiff).
    f_equal. apply Hiff. intros i Hi a b Ha Hb.
    assert (a = b) as -> by congruence. apply Z.land_diag.
Qed.
End HasAll.

(** ** The "no feature" id *)

Section Sentinel.
Context {layout : BitWordLayout}.
Import CpuFeatures.

Lemma uint32_t_idem f : uint32_t (uint32_t f) = uint32_t f.
Proof. unfold uint32_t. apply Zmod_mod. Qed.

Lemma uint32_t_feature_id f :
  (uint32_t f <? kMaxFeatures) = true -> feature_id (uint32_t f).
Proof.
  intros Hlt. apply Z.ltb_lt in Hlt. split; [| assumption].
  unfold uint32_t. apply Z.mod_pos_bound. reflexivity.
Qed.

Lemma feature_id_0 : feature_id 0.
Proof. unfold feature_id, kMaxFeatures. lia. Qed.

Lemma addIf_keeps_bit0 c : keeps_bit0 (addIf c).
Proof.
  intros f self self' Hnz Hwf Hop.
  assert (addIf c f self = addIf c (uint32_t f) self) as Hcast.
  { unfold addIf. now rewrite uint32_t_idem. }
  assert (feature_id (uint32_t f)) as Hf.
  { unfold addIf in Hop.
    destruct (uint32_t f <? kMaxFeatures) eqn:E; [| discriminate].
    now apply uint32_t_feature_id. }
  destruct (addIf_bits c self (uint32_t f) Hwf Hf) as (s & Hs & Hwf' & Hb).
  assert (s = self') as -> by congruence.
  split; [assumption |].
  rewrite (Hb 0 feature_id_0).
  assert ((0 =? uint32_t f) = false) as -> by (apply Z.eqb_neq; congruence).
  now rewrite andb_false_r.
Qed.

Lemma add_keeps_bit0 : keeps_bit0 add.
Proof. exact (addIf_keeps_bit0 true). Qed.

Lemma remove_keeps_bit0 : keeps_bit0 remove.
Proof.
  intros f self self' Hnz Hwf Hop.
  assert (remove f self = remove (uint32_t f) self) as Hcast.
  { unfold remove. now rewrite uint32_t_idem. }
  assert (feature_id (uint32_t f)) as Hf.
  { unfold remove in Hop.
    destruct (uint32_t f <? kMaxFeatures) eqn:E; [| discriminate].
    now apply uint32_t_feature_id. }
  destruct (remove_bits self (uint32_t f) Hwf Hf) as (s & Hs & Hwf' & Hb).
  assert (s = self') as -> by congruence.
  split; [assumption |].
  rewrite (Hb 0 feature_id_0).
  assert ((0 =? uint32_t f) = false) as -> by (apply Z.eqb_neq; congruence).
  reflexivity.
Qed.

(** What holds of an operation on one id holds of its overload on a pack,
    which applies it to each id in turn. *)
Lemma pack_keeps_bit0 (op : Z -> Data -> option Data)
    (pack : Z -> list Z -> Data -> option Data) :
  (forall f self, pack f [] self = op f self) ->
  (forall f g rest self,
     pack f (g :: rest) self = op f self ≫= pack g rest) ->
  keeps_bit0 op ->
  forall rest f self self',
    Forall (fun f => uint32_t f <> 0) (f :: rest) -> Data_wf self ->
    pack f rest self = Some self' ->
    Data_wf self' /\ bit_of self' 0 = bit_of self 0.
Proof.
  intros Hnil Hcons Hop.
  induction rest as [| g rest IH]; intros f self self' Hids Hwf Hpack;
    apply Forall_cons in Hids as [Hf Hrest].
  - rewrite Hnil in Hpack. eapply Hop; eassumption.
  - rewrite Hcons in Hpack.
    destruct (op f self) as [s1 |] eqn:E; [| discriminate]. simpl in Hpack.
    destruct (Hop f self s1 Hf Hwf E) as [Hwf1 Hb1].
    destruct (IH g s1 self' Hrest Hwf1 Hpack) as [Hwf' Hb'].
    split; [assumption | congruence].
Qed.

Lemma reachable_bit0 self :
  reachable (fun f => uint32_t f <> 0) self ->
  Data_wf self /\ bit_of self 0 = false.
Proof.
  induction 1 as [| f rest self self' _ [Hwf Hb] Hids Hop
                  | c f rest self self' _ [Hwf Hb] Hids Hop
                  | f rest self self' _ [Hwf Hb] Hids Hop].
  - split; [apply Data_zero_wf | apply bit_of_Data_zero].
  - destruct (pack_keeps_bit0 add add_pack) with (4 := Hids) (6 := Hop);
      try reflexivity; try assumption; [apply add_keeps_bit0 |].
    split; [assumption | congruence].
  - destruct (pack_keeps_bit0 (addIf c) (addIf_pack c))
      with (4 := Hids) (6 := Hop);
      try reflexivity; try assumption; [apply addIf_keeps_bit0 |].
    split; [assumption | congruence].
  - destruct (pack_keeps_bit0 remove remove_pack) with (4 := Hids) (6 := Hop);
      try reflexivity; try assumption; [apply remove_keeps_bit0 |].
    split; [assumption | congruence].
Qed.

(** C8, as amended: in every feature set reached from the
    zero-initialised one by [add], [addIf] and [remove] calls whose
    feature ids are all different from 0, [has(0)] is false.  The
    operations themselves accept id 0 like any other id. *)
Theorem sentinel_clear_unless_added (self : Data) :
  reachable (fun f => uint32_t f <> 0) self -> has 0 self = Some false.
Proof.
  intros Hreach. destruct (reachable_bit0 self Hreach) as [Hwf Hb].
  rewrite has_bit_of by (assumption || apply feature_id_0).
  now rewrite Hb.
Qed.
End Sentinel.

(** ** CpuInfo *)

Section CpuInfoFacts.
Context {layout : BitWordLayout}.

Lemma aggregate_Or_replicate_zero n :
  Support.aggregate_Or (replicate n 0) 0 = 0.
Proof.
  unfold Support.aggregate_Or. induction n as [| n IH]; simpl; auto.
Qed.

Lemma c_str_zeroed N : FixedString.c_str (FixedString.zeroed N) = "".
Proof. destruct N; reflexivity. Qed.

(** C6: a default-constructed [CpuInfo] is the all-zero state, whatever
    its members held before: not detected, no hardware threads, empty
    vendor and brand strings, an empty feature set (the value-initialised
    one), and zero in every other field; the vendor buffer is 16 zero
    bytes and the brand buffer 64 zero bytes. *)
Theorem default_CpuInfo (uninitialized : CpuInfo.t) :
  let c := CpuInfo.ctor uninitialized in
  CpuInfo.wasDetected c = false /\
  CpuInfo.hwThreadCount c = 0 /\
  CpuInfo.vendor c = "" /\
  CpuFeaturesClass.empty (CpuInfo.features c) = true /\
  CpuInfo.features c = CpuFeaturesClass.ctor /\
  CpuInfo.brand c = "" /\
  CpuInfo.arch c = 0 /\
  CpuInfo.subArch c = 0 /\
  CpuInfo._reserved c = 0 /\
  CpuInfo.familyId c = 0 /\
  CpuInfo.modelId c = 0 /\
  CpuInfo.brandId c = 0 /\
  CpuInfo.stepping c = 0 /\
  CpuInfo.processorType c = 0 /\
  CpuInfo.maxLogicalProcessors c = 0 /\
  CpuInfo.cacheLineSize c = 0 /\
  CpuInfo._vendor c = replicate 16 Byte.x00 /\
  CpuInfo._brand c = replicate 64 Byte.x00.
Proof.
  simpl. repeat split.
  unfold CpuFeaturesClass.empty, CpuFeatures.empty,
    CpuInfo.features, CpuInfo.ctor, CpuInfo.reset. simpl.
  now rewrite aggregate_Or_replicate_zero.
Qed.

(** C7: [initArch(arch, subArch)] sets the architecture and the
    sub-architecture, and every other field of the record is the one it
    was before the call. *)
Theorem initArch_frame (arch subArch : Z) (self : CpuInfo.t) :
  let c := CpuInfo.initArch arch subArch self in
  CpuInfo.arch c = arch /\
  CpuInfo.subArch c = subArch /\
  CpuInfo.wasDetected c = CpuInfo.wasDetected self /\
  CpuInfo._reserved c = CpuInfo._reserved self /\
  CpuInfo.familyId c = CpuInfo.familyId self /\
  CpuInfo.modelId c = CpuInfo.modelId self /\
  CpuInfo.brandId c = CpuInfo.brandId self /\
  CpuInfo.stepping c = CpuInfo.stepping self /\
  CpuInfo.processorType c = CpuInfo.processorType self /\
  CpuInfo.maxLogicalProcessors c = CpuInfo.maxLogicalProcessors self /\
  CpuInfo.cacheLineSize c = CpuInfo.cacheLineSize self /\
  CpuInfo.hwThreadCount c = CpuInfo.hwThreadCount self /\
  CpuInfo._vendor c = CpuInfo._vendor self /\
  CpuInfo._brand c = CpuInfo._brand self /\
  CpuInfo.features c = CpuInfo.features self.
Proof. simpl. repeat split. Qed.
End CpuInfoFacts.

(** ** a32::Inst::isDefinedId *)

Section InstId.
Import a32.Inst.

Lemma kIdNone_value : Id_value "kIdNone" = Some kIdNone /\ kIdNone = 0.
Proof. split; reflexivity. Qed.

Lemma kIdCount_value :
  Id_value "_kIdCount" = Some _kIdCount /\ _kIdCount = 447.
Proof. split; reflexivity. Qed.

(** The enumeration is dense: its values are 0, 1, 2, ... in the order of
    the source, and [_kIdCount], the last one, is the number of those
    before it. *)
Lemma Id_dense : map snd Id = seqZ 0 (_kIdCount + 1).
Proof. vm_compute. reflexivity. Qed.

(** C3: for every instruction id [i] (a 32-bit unsigned value),
    [isDefinedId(i)] is true iff [i < _kIdCount]; [isDefinedId(kIdNone)],
    that is [isDefinedId(0)], is true and [isDefinedId(_kIdCount)] is
    false. *)
Theorem isDefinedId_below_count (i : Z) :
  0 <= i < 2 ^ 32 ->
  (isDefinedId i = true <-> i < _kIdCount) /\
  isDefinedId kIdNone = true /\
  isDefinedId 0 = true /\
  isDefinedId _kIdCount = false.
Proof.
  intros Hi. split; [| repeat split].
  unfold isDefinedId. rewrite uint32_t_small by assumption.
  apply Z.ltb_lt.
Qed.
End InstId.

(** ** The properties at work on a 64-bit and on a 32-bit word *)

Ltac feature_ids :=
  repeat first
    [ apply Forall_nil_2
    | apply Forall_cons_2
    | unfold feature_id, CpuFeatures.kMaxFeatures; lia ].

Ltac words_ok :=
  split;
  [ reflexivity
  | repeat first
      [ apply Forall_nil_2
      | apply Forall_cons_2
      | split; [discriminate | reflexivity] ] ].

Section OnBitWord64.
Local Existing Instance BitWord64.
Import CpuFeatures.

Lemma add_remove_has_witness :
  feature_id 13 /\
  (has 13 Data_zero = Some false /\
   (forall self, Data_wf self ->
      exists s1 s2,
        add 13 self = Some s1 /\
        has 13 s1 = Some true /\
        add 13 s1 = Some s1 /\
        remove 13 s1 = Some s2 /\
        has 13 s2 = Some false /\
        remove 13 s2 = Some s2) /\
   (forall self, Data_wf self ->
      has 13 self = Some true ->
      add 13 self = Some self) /\
   (forall self, Data_wf self ->
      has 13 self = Some false ->
      remove 13 self = Some self)).
Proof.
  split; [feature_ids |].
  apply (add_remove_has 13). feature_ids.
Defined.

Lemma addIf_condition_witness :
  Data_wf {| _bits := [2; 0; 0; 1] |} /\
  Forall feature_id [1; 2; 200] /\
  (addIf_pack false 1 [2; 200] {| _bits := [2; 0; 0; 1] |}
   = Some {| _bits := [2; 0; 0; 1] |} /\
   exists self',
     addIf_pack true 1 [2; 200] {| _bits := [2; 0; 0; 1] |}
     = Some self' /\
     forall g, g ∈ [1; 2; 200] -> has g self' = Some true).
Proof.
  assert (Data_wf {| _bits := [2; 0; 0; 1] |}) as Hwf
    by words_ok.
  assert (Forall feature_id [1; 2; 200]) as Hids by feature_ids.
  split; [exact Hwf |]. split; [exact Hids |].
  exact (addIf_condition 1 [2; 200] _ Hwf Hids).
Defined.

Lemma hasAny_or_witness :
  Data_wf {| _bits := [8; 0; 0; 0] |} /\
  ((forall a b, feature_id a -> feature_id b ->
      exists ha hb,
        has a {| _bits := [8; 0; 0; 0] |} = Some ha /\
        has b {| _bits := [8; 0; 0; 0] |} = Some hb /\
        hasAny a [b] {| _bits := [8; 0; 0; 0] |}
        = Some (ha || hb)) /\
   (forall f rest, Forall feature_id (f :: rest) ->
      exists tests,
        Forall2
          (fun g t =>
             has g {| _bits := [8; 0; 0; 0] |} = Some t)
          (f :: rest) tests /\
        hasAny f rest {| _bits := [8; 0; 0; 0] |}
        = Some (foldr orb false tests))).
Proof.
  assert (Data_wf {| _bits := [8; 0; 0; 0] |}) as Hwf
    by words_ok.
  split; [exact Hwf |].
  exact (hasAny_or _ Hwf).
Defined.

Lemma hasAll_subset_witness :
  Data_wf {| _bits := [3; 0; 0; 0] |} /\
  Data_wf {| _bits := [1; 0; 0; 0] |} /\
  ((exists r,
      hasAll
        {| _bits := [3; 0; 0; 0] |} {| _bits := [1; 0; 0; 0] |} = Some r /\
      (r = true <->
       forall w a b, (w < Z.to_nat (kNumBitWords))%nat ->
         [3; 0; 0; 0] !! w = Some a -> [1; 0; 0; 0] !! w = Some b ->
         Z.land a b = b) /\
      (r = true <->
       forall f, feature_id f ->
         has f {| _bits := [1; 0; 0; 0] |} = Some true ->
         has f {| _bits := [3; 0; 0; 0] |} = Some true)) /\
   (empty {| _bits := [1; 0; 0; 0] |} = true ->
    hasAll
      {| _bits := [3; 0; 0; 0] |} {| _bits := [1; 0; 0; 0] |} = Some true) /\
   hasAll {| _bits := [3; 0; 0; 0] |} Data_zero = Some true /\
   hasAll
     {| _bits := [3; 0; 0; 0] |} {| _bits := [3; 0; 0; 0] |} = Some true).
Proof.
  assert (Data_wf {| _bits := [3; 0; 0; 0] |}) as Hs
    by words_ok.
  assert (Data_wf {| _bits := [1; 0; 0; 0] |}) as Ho
    by words_ok.
  split; [exact Hs |]. split; [exact Ho |].
  exact (hasAll_subset _ _ Hs Ho).
Defined.

Lemma sentinel_clear_unless_added_witness :
  reachable (fun f => uint32_t f <> 0)
    {| _bits := [8192; 0; 0; 0] |} /\
  has 0 {| _bits := [8192; 0; 0; 0] |} = Some false.
Proof.
  assert (reachable (fun f => uint32_t f <> 0)
            {| _bits := [8192; 0; 0; 0] |}) as Hreach.
  { apply (reachable_add _ 13 [] Data_zero).
    - apply reachable_zero.
    - apply Forall_cons_2; [discriminate | apply Forall_nil_2].
    - reflexivity. }
  split; [exact Hreach |].
  exact (sentinel_clear_unless_added _ Hreach).
Defined.

(** C8, as the claim states it, fails: [add(0)] on the zero-initialised
    set is one call of a public mutation, and the set it gives has bit 0
    set. *)
Lemma sentinel_set_by_add :
  reachable (fun _ => True) {| _bits := [1; 0; 0; 0] |} /\
  has 0 {| _bits := [1; 0; 0; 0] |} = Some true.
Proof.
  split; [| reflexivity].
  apply (reachable_add _ 0 [] Data_zero).
  - apply reachable_zero.
  - apply Forall_cons_2; [exact I | apply Forall_nil_2].
  - reflexivity.
Qed.


(** The feature ids of X86 fit the bit-set (the [static_assert] of the
    source), and [kNone] is id 0. *)
Lemma X86_ids_fit : X86.kNone = 0 /\ X86.kMaxValue < kMaxFeatures.
Proof. split; reflexivity. Qed.

(** [hasAll] is inclusion, not equality: a set with more features than
    [other] passes the test, and is not [eq] to it. *)
Example hasAll_not_eq :
  hasAll {| _bits := [3; 0; 0; 0] |} {| _bits := [1; 0; 0; 0] |} = Some true /\
  hasAll {| _bits := [1; 0; 0; 0] |} {| _bits := [3; 0; 0; 0] |} = Some false /\
  eq {| _bits := [3; 0; 0; 0] |} {| _bits := [1; 0; 0; 0] |} = false.
Proof. repeat split. Qed.

(** The set {AVX, AVX2} built with [add], then queried and reduced. *)
Example scenario_avx :
  exists avx avx_avx2 avx_bmi2 avx2,
    add_pack X86.kAVX [X86.kAVX2] Data_zero = Some avx_avx2 /\
    add X86.kAVX Data_zero = Some avx /\
    add_pack X86.kAVX [X86.kBMI2] Data_zero = Some avx_bmi2 /\
    hasAny X86.kAVX [X86.kSSE] avx_avx2 = Some true /\
    hasAll avx_avx2 avx_avx2 = Some true /\
    hasAll avx_avx2 avx = Some true /\
    hasAll avx_avx2 avx_bmi2 = Some false /\
    remove X86.kAVX avx_avx2 = Some avx2 /\
    has X86.kAVX avx2 = Some false /\
    has X86.kAVX2 avx2 = Some true.
Proof. repeat eexists. Qed.

(** An id that is not below [kMaxFeatures] fails the assertion. *)
Example has_out_of_range :
  has 256 Data_zero = None /\ add 256 Data_zero = None /\
  has (-1) Data_zero = None.
Proof. repeat split. Qed.
End OnBitWord64.

Section OnBitWord32.
Local Existing Instance BitWord32.
Import CpuFeatures.

Lemma mutation_other_bit_witness :
  feature_id 3 /\ feature_id 70 /\ 3 <> 70 /\
  Data_wf Data_zero /\
  ((exists s', add 3 Data_zero = Some s' /\
               has 70 s'
               = has 70 Data_zero) /\
   (exists s', remove 3 Data_zero = Some s' /\
               has 70 s'
               = has 70 Data_zero) /\
   (forall c, exists s',
        addIf c 3 Data_zero = Some s' /\
        has 70 s'
        = has 70 Data_zero)).
Proof.
  split; [feature_ids |]. split; [feature_ids |]. split; [lia |].
  split; [apply Data_zero_wf |].
  apply (mutation_other_bit 3 70 Data_zero);
    [feature_ids | feature_ids | lia | apply Data_zero_wf].
Defined.
End OnBitWord32.

Lemma isDefinedId_below_count_witness :
  0 <= 446 < 2 ^ 32 /\
  ((a32.Inst.isDefinedId 446 = true <-> 446 < a32.Inst._kIdCount) /\
   a32.Inst.isDefinedId a32.Inst.kIdNone = true /\
   a32.Inst.isDefinedId 0 = true /\
   a32.Inst.isDefinedId a32.Inst._kIdCount = false).
Proof.
  assert (0 <= 446 < 2 ^ 32) as Hi by (split; [discriminate | reflexivity]).
  split; [exact Hi |].
  exact (isDefinedId_below_count 446 Hi).
Defined.

(** * Further properties of the feature set *)

(** ** Ids outside the bit-set, and what every operation keeps *)

Section Assertions.
Context {layout : BitWordLayout}.
Import CpuFeatures.

Lemma has_cast f self : has f self = has (uint32_t f) self.
Proof. unfold has. now rewrite uint32_t_idem. Qed.

Lemma addIf_cast c f self : addIf c f self = addIf c (uint32_t f) self.
Proof. unfold addIf. now rewrite uint32_t_idem. Qed.

Lemma remove_cast f self : remove f self = remove (uint32_t f) self.
Proof. unfold remove. now rewrite uint32_t_idem. Qed.

Lemma in_range_cases f :
  feature_id (uint32_t f) \/
  (kMaxFeatures <= uint32_t f /\ (uint32_t f <? kMaxFeatures) = false).
Proof.
  destruct (uint32_t f <? kMaxFeatures) eqn:E.
  - left. now apply uint32_t_feature_id.
  - right. split; [now apply Z.ltb_ge | reflexivity].
Qed.

Lemma not_feature_id_ge f : feature_id f -> kMaxFeatures <= f -> False.
Proof. unfold feature_id. lia. Qed.

Lemma has_None_iff f self :
  Data_wf self -> has f self = None <-> kMaxFeatures <= uint32_t f.
Proof.
  intros Hwf. destruct (in_range_cases f) as [Hf | [Hge Hltb]].
  - rewrite has_cast, has_bit_of by assumption.
    split; [discriminate | intros Hge; destruct (not_feature_id_ge _ Hf Hge)].
  - unfold has. rewrite Hltb. simpl. tauto.
Qed.

Lemma addIf_None_iff c f self :
  Data_wf self -> addIf c f self = None <-> kMaxFeatures <= uint32_t f.
Proof.
  intros Hwf. destruct (in_range_cases f) as [Hf | [Hge Hltb]].
  - rewrite addIf_cast.
    destruct (addIf_bits c self _ Hwf Hf) as (s' & -> & _).
    split; [discriminate | intros Hge; destruct (not_feature_id_ge _ Hf Hge)].
  - unfold addIf. rewrite Hltb. simpl. tauto.
Qed.

Lemma remove_None_iff f self :
  Data_wf self -> remove f self = None <-> kMaxFeatures <= uint32_t f.
Proof.
  intros Hwf. destruct (in_range_cases f) as [Hf | [Hge Hltb]].
  - rewrite remove_cast.
    destruct (remove_bits self _ Hwf Hf) as (s' & -> & _).
    split; [discriminate | intros Hge; destruct (not_feature_id_ge _ Hf Hge)].
  - unfold remove. rewrite Hltb. simpl. tauto.
Qed.

Lemma addIf_Some_wf c f self self' :
  Data_wf self -> addIf c f self = Some self' -> Data_wf self'.
Proof.
  intros Hwf Hop. destruct (in_range_cases f) as [Hf | [Hge Hltb]].
  - rewrite addIf_cast in Hop.
    destruct (addIf_bits c self _ Hwf Hf) as (s' & Hs' & Hwf' & _).
    congruence.
  - unfold addIf in Hop. rewrite Hltb in Hop. discriminate.
Qed.

Lemma remove_Some_wf f self self' :
  Data_wf self -> remove f self = Some self' -> Data_wf self'.
Proof.
  intros Hwf Hop. destruct (in_range_cases f) as [Hf | [Hge Hltb]].
  - rewrite remove_cast in Hop.
    destruct (remove_bits self _ Hwf Hf) as (s' & Hs' & Hwf' & _).
    congruence.
  - unfold remove in Hop. rewrite Hltb in Hop. discriminate.
Qed.

(** An overload on a pack applies the operation to each id in turn: it
    keeps what the operation keeps, and fails iff the operation fails at
    one of the ids. *)
Lemma pack_Some_wf (op : Z -> Data -> option Data)
    (pack : Z -> list Z -> Data -> option Data) :
  (forall f self, pack f [] self = op f self) ->
  (forall f g rest self,
     pack f (g :: rest) self = op f self ≫= pack g rest) ->
  (forall f self self', Data_wf self -> op f self = Some self' -> Data_wf self') ->
  forall rest f self self',
    Data_wf self -> pack f rest self = Some self' -> Data_wf self'.
Proof.
  intros Hnil Hcons Hop.
  induction rest as [| g rest IH]; intros f self self' Hwf Hpack.
  - rewrite Hnil in Hpack. eauto.
  - rewrite Hcons in Hpack.
    destruct (op f self) as [s1 |] eqn:E; [| discriminate]. simpl in Hpack.
    eauto.
Qed.

Lemma pack_None_iff (op : Z -> Data -> option Data)
    (pack : Z -> list Z -> Data -> option Data) :
  (forall f self, pack f [] self = op f self) ->
  (forall f g rest self,
     pack f (g :: rest) self = op f self ≫= pack g rest) ->
  (forall f self self', Data_wf self -> op f self = Some self' -> Data_wf self') ->
  (forall f self, Data_wf self ->
     op f self = None <-> kMaxFeatures <= uint32_t f) ->
  forall rest f self,
    Data_wf self ->
    pack f rest self = None <->
    Exists (fun g => kMaxFeatures <= uint32_t g) (f :: rest).
Proof.
  intros Hnil Hcons Hop Hfail.
  induction rest as [| g rest IH]; intros f self Hwf.
  - rewrite Hnil, (Hfail f self Hwf), Exists_cons, Exists_nil. tauto.
  - rewrite Hcons, Exists_cons.
    destruct (op f self) as [s1 |] eqn:E; simpl.
    + rewrite (IH g s1) by eauto.
      assert (~ kMaxFeatures <= uint32_t f) as Hin.
      { intros Hge. apply (Hfail f self Hwf) in Hge. congruence. }
      tauto.
    + apply (Hfail f self Hwf) in E. tauto.
Qed.

Lemma hasAny_None_iff rest : forall f self,
  Data_wf self ->
  hasAny f rest self = None <->
  Exists (fun g => kMaxFeatures <= uint32_t g) (f :: rest).
Proof.
  induction rest as [| g rest IH]; intros f self Hwf; simpl.
  - rewrite (has_None_iff f self Hwf), Exists_cons, Exists_nil. tauto.
  - rewrite Exists_cons. specialize (IH g self Hwf).
    pose proof (has_None_iff f self Hwf) as Hf.
    destruct (has f self) as [a |]; simpl.
    + destruct (hasAny g rest self) as [b |]; simpl.
      * split; [discriminate |]. intros [Hge | Hex].
        -- apply Hf in Hge. discriminate.
        -- apply IH in Hex. discriminate.
      * split; [| reflexivity]. intros _. right. now apply IH.
    + split; [| reflexivity]. intros _. left. now apply Hf.
Qed.

(** X1: on a feature set, each operation on one id fails (the assertion
    of the source) exactly when the id, converted to [uint32_t], is not
    below [kMaxFeatures]; a negative id is such an id. *)
Theorem single_id_assertion (f : Z) (self : Data) :
  Data_wf self ->
  (has f self = None <-> kMaxFeatures <= uint32_t f) /\
  (add f self = None <-> kMaxFeatures <= uint32_t f) /\
  (remove f self = None <-> kMaxFeatures <= uint32_t f) /\
  (forall c, addIf c f self = None <-> kMaxFeatures <= uint32_t f) /\
  (-2 ^ 31 <= f < 0 -> has f self = None).
Proof.
  intros Hwf. split; [| split; [| split; [| split]]].
  - now apply has_None_iff.
  - now apply (addIf_None_iff true).
  - now apply remove_None_iff.
  - intros c. now apply addIf_None_iff.
  - intros Hneg. apply has_None_iff; [assumption |].
    unfold uint32_t, kMaxFeatures.
    rewrite <- (Z.mod_add f 1) by discriminate.
    rewrite Z.mod_small; change (2 ^ 32) with 4294967296;
      change (2 ^ 31) with 2147483648 in Hneg; lia.
Qed.

(** X2: an operation on a pack of ids fails exactly when one id of the
    pack, wherever it stands, is not below [kMaxFeatures]; this holds of
    [addIf] also when the condition is false. *)
Theorem pack_assertion (f : Z) (rest : list Z) (self : Data) :
  Data_wf self ->
  let out_of_range := Exists (fun g => kMaxFeatures <= uint32_t g) (f :: rest) in
  (hasAny f rest self = None <-> out_of_range) /\
  (add_pack f rest self = None <-> out_of_range) /\
  (remove_pack f rest self = None <-> out_of_range) /\
  (forall c, addIf_pack c f rest self = None <-> out_of_range).
Proof.
  intros Hwf. simpl. split; [| split; [| split]].
  - now apply hasAny_None_iff.
  - apply (pack_None_iff add add_pack); try reflexivity; try assumption.
    + apply (addIf_Some_wf true).
    + intros g s Hs. now apply (addIf_None_iff true).
  - apply (pack_None_iff remove remove_pack); try reflexivity; try assumption.
    + apply remove_Some_wf.
    + intros g s Hs. now apply remove_None_iff.
  - intros c.
    apply (pack_None_iff (addIf c) (addIf_pack c));
      try reflexivity; try assumption.
    + apply addIf_Some_wf.
    + intros g s Hs. now apply addIf_None_iff.
Qed.

Lemma reachable_wf allowed self : reachable allowed self -> Data_wf self.
Proof.
  induction 1 as [| f rest self self' _ Hwf _ Hop
                  | c f rest self self' _ Hwf _ Hop
                  | f rest self self' _ Hwf _ Hop].
  - apply Data_zero_wf.
  - apply (pack_Some_wf add add_pack) with (4 := Hwf) (5 := Hop);
      try reflexivity. apply (addIf_Some_wf true).
  - apply (pack_Some_wf (addIf c) (addIf_pack c)) with (4 := Hwf) (5 := Hop);
      try reflexivity. apply addIf_Some_wf.
  - apply (pack_Some_wf remove remove_pack) with (4 := Hwf) (5 := Hop);
      try reflexivity. apply remove_Some_wf.
Qed.

(** X3: the storage never shrinks or grows: a set made by any sequence
    of [add], [addIf] and [remove] calls, with any ids, has
    [bitWordCount()] words, each a value of the word type, and these words
    hold [kMaxFeatures] bits whatever the width of the word. *)
Theorem storage_invariant (self : Data) :
  reachable (fun _ => True) self ->
  Z.of_nat (length (bits self)) = bitWordCount self /\
  Forall Support.is_BitWord (bits self) /\
  bitWordCount self * kBitWordSizeInBits = kMaxFeatures.
Proof.
  intros Hreach. destruct (reachable_wf _ _ Hreach) as [Hlen Hall].
  unfold bits, bitWordCount. pose proof numwords_pos.
  split; [lia | split; [assumption | apply numwords_width]].
Qed.
End Assertions.

(** ** What a pack of ids does to the set *)

Section PackEffects.
Context {layout : BitWordLayout}.
Import CpuFeatures.

Lemma add_pack_addIf_pack rest : forall f self,
  add_pack f rest self = addIf_pack true f rest self.
Proof.
  induction rest as [| g rest IH]; intros f self; simpl; [reflexivity |].
  rewrite add_addIf. destruct (addIf true f self); simpl; auto.
Qed.

Lemma add_pack_bits rest f self :
  Data_wf self -> Forall feature_id (f :: rest) ->
  exists self', add_pack f rest self = Some self' /\ Data_wf self' /\
    forall g, feature_id g ->
      bit_of self' g = bool_decide (g ∈ f :: rest) || bit_of self g.
Proof.
  intros Hwf Hids. rewrite add_pack_addIf_pack.
  exact (addIf_pack_bits true rest f self Hwf Hids).
Qed.

Lemma remove_pack_bits rest : forall f self,
  Data_wf self -> Forall feature_id (f :: rest) ->
  exists self', remove_pack f rest self = Some self' /\ Data_wf self' /\
    forall g, feature_id g ->
      bit_of self' g = negb (bool_decide (g ∈ f :: rest)) && bit_of self g.
Proof.
  induction rest as [| g0 rest IH]; intros f self Hwf Hids;
    apply Forall_cons in Hids as [Hf Hrest]; simpl.
  - destruct (remove_bits self f Hwf Hf) as (s' & Hs' & Hwf' & Hb).
    exists s'. split; [assumption | split; [assumption |]].
    intros g Hg. rewrite (Hb g Hg), bool_decide_elem_of_cons.
    rewrite (bool_decide_eq_false_2 (g ∈ [])) by apply not_elem_of_nil.
    now rewrite orb_false_r.
  - destruct (remove_bits self f Hwf Hf) as (s1 & -> & Hwf1 & Hb1). simpl.
    destruct (IH g0 s1 Hwf1 Hrest) as (s' & Hs' & Hwf' & Hb).
    exists s'. split; [assumption | split; [assumption |]].
    intros g Hg. rewrite (Hb g Hg), (Hb1 g Hg).
    rewrite (bool_decide_elem_of_cons g f).
    destruct (g =? f), (bool_decide (g ∈ g0 :: rest)), (bit_of self g);
      reflexivity.
Qed.

(** X4: [add(ids...)] with ids below 256 succeeds, and the set it gives
    has a feature iff the feature is one of the ids or was in the set
    before. *)
Theorem add_pack_exact (f : Z) (rest : list Z) (self : Data) :
  Data_wf self -> Forall feature_id (f :: rest) ->
  exists self', add_pack f rest self = Some self' /\
    forall g, feature_id g ->
      exists b, has g self = Some b /\
                has g self' = Some (bool_decide (g ∈ f :: rest) || b).
Proof.
  intros Hwf Hids.
  destruct (add_pack_bits rest f self Hwf Hids) as (s' & Hs' & Hwf' & Hb).
  exists s'. split; [assumption |].
  intros g Hg. exists (bit_of self g).
  rewrite !has_bit_of, (Hb g Hg) by assumption. split; reflexivity.
Qed.

(** X5: [remove(ids...)] with ids below 256 succeeds, and the set it
    gives has a feature iff the feature is none of the ids and was in the
    set before. *)
Theorem remove_pack_exact (f : Z) (rest : list Z) (self : Data) :
  Data_wf self -> Forall feature_id (f :: rest) ->
  exists self', remove_pack f rest self = Some self' /\
    forall g, feature_id g ->
      exists b, has g self = Some b /\
                has g self' = Some (negb (bool_decide (g ∈ f :: rest)) && b).
Proof.
  intros Hwf Hids.
  destruct (remove_pack_bits rest f self Hwf Hids) as (s' & Hs' & Hwf' & Hb).
  exists s'. split; [assumption |].
  intros g Hg. exists (bit_of self g).
  rewrite !has_bit_of, (Hb g Hg) by assumption. split; reflexivity.
Qed.

(** X6: [add] and [remove] of one id undo each other: removing an id
    just added to a set that lacked it, or adding back an id just removed
    from a set that had it, gives the set one started from. *)
Theorem add_remove_round_trip (f : Z) (self : Data) :
  Data_wf self -> feature_id f ->
  (has f self = Some false -> add f self ≫= remove f = Some self) /\
  (has f self = Some true -> remove f self ≫= add f = Some self).
Proof.
  intros Hwf Hf. rewrite has_bit_of by assumption. split; intros [= Hbit].
  - destruct (add_bits self f Hwf Hf) as (s1 & -> & Hwf1 & Hb1). simpl.
    destruct (remove_bits s1 f Hwf1 Hf) as (s2 & -> & Hwf2 & Hb2).
    f_equal. apply Data_ext; [assumption | assumption |].
    intros g Hg. rewrite (Hb2 g Hg), (Hb1 g Hg).
    destruct (Z.eqb_spec g f) as [-> | _]; simpl; congruence.
  - destruct (remove_bits self f Hwf Hf) as (s1 & -> & Hwf1 & Hb1). simpl.
    destruct (add_bits s1 f Hwf1 Hf) as (s2 & -> & Hwf2 & Hb2).
    f_equal. apply Data_ext; [assumption | assumption |].
    intros g Hg. rewrite (Hb2 g Hg), (Hb1 g Hg).
    destruct (Z.eqb_spec g f) as [-> | _]; simpl; congruence.
Qed.

Lemma same_ids_feature_id (ids ids' : list Z) :
  (forall g, g ∈ ids <-> g ∈ ids') ->
  Forall feature_id ids -> Forall feature_id ids'.
Proof.
  rewrite !Forall_forall. intros Hsame Hids g Hin. apply Hids. now apply Hsame.
Qed.

(** X7: only the set of ids of a pack matters, not their order nor
    their repetitions: two packs with the same ids (below 256) give the
    same set, with [add], with [remove] and with [addIf]. *)
Theorem pack_order_irrelevant (f f' : Z) (rest rest' : list Z) (self : Data) :
  Data_wf self -> Forall feature_id (f :: rest) ->
  (forall g, g ∈ f :: rest <-> g ∈ f' :: rest') ->
  add_pack f rest self = add_pack f' rest' self /\
  remove_pack f rest self = remove_pack f' rest' self /\
  (forall c, addIf_pack c f rest self = addIf_pack c f' rest' self).
Proof.
  intros Hwf Hids Hsame.
  pose proof (same_ids_feature_id _ _ Hsame Hids) as Hids'.
  assert (forall g, bool_decide (g ∈ f :: rest) = bool_decide (g ∈ f' :: rest'))
    as Hdec by (intros g; apply bool_decide_ext, Hsame).
  split; [| split].
  - destruct (add_pack_bits rest f self Hwf Hids) as (s & -> & Hs & Hb).
    destruct (add_pack_bits rest' f' self Hwf Hids') as (s' & -> & Hs' & Hb').
    f_equal. apply Data_ext; [assumption | assumption |].
    intros g Hg. now rewrite (Hb g Hg), (Hb' g Hg), Hdec.
  - destruct (remove_pack_bits rest f self Hwf Hids) as (s & -> & Hs & Hb).
    destruct (remove_pack_bits rest' f' self Hwf Hids') as (s' & -> & Hs' & Hb').
    f_equal. apply Data_ext; [assumption | assumption |].
    intros g Hg. now rewrite (Hb g Hg), (Hb' g Hg), Hdec.
  - intros c.
    destruct (addIf_pack_bits c rest f self Hwf Hids) as (s & -> & Hs & Hb).
    destruct (addIf_pack_bits c rest' f' self Hwf Hids') as (s' & -> & Hs' & Hb').
    f_equal. apply Data_ext; [assumption | assumption |].
    intros g Hg. now rewrite (Hb g Hg), (Hb' g Hg), Hdec.
Qed.

Lemma addIf_false_cast f self :
  Data_wf self ->
  addIf false f self = if uint32_t f <? kMaxFeatures then Some self else None.
Proof.
  intros Hwf. destruct (in_range_cases f) as [Hf | [Hge Hltb]].
  - rewrite addIf_cast, addIf_false by assumption.
    destruct Hf as [_ Hlt]. apply Z.ltb_lt in Hlt. now rewrite Hlt.
  - rewrite Hltb. unfold addIf. now rewrite Hltb.
Qed.

(** X8: [addIf(true, ids...)] is [add(ids...)], for any ids; and
    [addIf(false, ids...)] still checks every id: it returns the set
    unchanged when all ids are below [kMaxFeatures] and fails otherwise. *)
Theorem addIf_is_conditional_add (f : Z) (rest : list Z) (self : Data) :
  Data_wf self ->
  addIf_pack true f rest self = add_pack f rest self /\
  addIf_pack false f rest self =
    if forallb (fun g => uint32_t g <? kMaxFeatures) (f :: rest)
    then Some self else None.
Proof.
  intros Hwf. split; [symmetry; apply add_pack_addIf_pack |].
  revert f. induction rest as [| g rest IH]; intros f; simpl.
  - rewrite addIf_false_cast by assumption. now rewrite andb_true_r.
  - rewrite addIf_false_cast by assumption.
    destruct (uint32_t f <? kMaxFeatures); simpl; [apply IH | reflexivity].
Qed.
End PackEffects.

(** ** Comparing feature sets: eq, empty, reset, hasAll *)

Section Comparisons.
Context {layout : BitWordLayout}.
Import CpuFeatures.

Lemma has_eq_bits self other f :
  Data_wf self -> Data_wf other -> feature_id f ->
  has f self = has f other <-> bit_of self f = bit_of other f.
Proof.
  intros Hs Ho Hf. rewrite !has_bit_of by assumption.
  split; [now intros [= ->] | now intros ->].
Qed.

Lemma eq_bits self other :
  Data_wf self -> Data_wf other ->
  eq self other = true <->
  forall f, feature_id f -> bit_of self f = bit_of other f.
Proof.
  intros Hs Ho. unfold eq. rewrite bool_decide_eq_true. split.
  - intros Heq f _. unfold bit_of. now rewrite Heq.
  - intros Hbits. now rewrite (Data_ext self other Hs Ho Hbits).
Qed.

Lemma hasAll_bits self other :
  Data_wf self -> Data_wf other ->
  exists r, hasAll self other = Some r /\
    (r = true <->
     forall f, feature_id f -> bit_of other f = true -> bit_of self f = true).
Proof.
  intros Hs Ho. destruct (hasAll_words self other Hs Ho) as (r & Hr & Hiff).
  exists r. split; [assumption |].
  now rewrite Hiff, (word_included_bits self other Hs Ho).
Qed.

Lemma empty_bits self :
  Data_wf self ->
  empty self = true <-> forall f, feature_id f -> bit_of self f = false.
Proof.
  intros Hwf. split.
  - intros Hempty f Hf. unfold empty in Hempty. apply Z.eqb_eq in Hempty.
    apply aggregate_Or_zero in Hempty as [_ Hzero].
    destruct (Data_wf_lookup self f Hwf Hf) as (w & Hw & _ & ->).
    rewrite (Forall_lookup_1 _ _ _ _ Hzero Hw). apply Z.bits_0.
  - intros Hbits.
    assert (self = Data_zero) as ->.
    { apply Data_ext; [assumption | apply Data_zero_wf |].
      intros f Hf. now rewrite (Hbits f Hf), bit_of_Data_zero. }
    unfold empty. simpl. now rewrite aggregate_Or_replicate_zero.
Qed.

(** X9: [eq] compares the features: two sets are [eq] iff [has] answers
    the same on both for every feature id, iff each one [hasAll] of the
    other; [eq] is symmetric and [operator!=] is its negation. *)
Theorem eq_same_features (self other : Data) :
  Data_wf self -> Data_wf other ->
  (eq self other = true <->
   forall f, feature_id f -> has f self = has f other) /\
  (eq self other = true <->
   hasAll self other = Some true /\ hasAll other self = Some true) /\
  eq self other = eq other self /\
  op_ne self other = negb (op_eq self other).
Proof.
  intros Hs Ho. split; [| split; [| split]].
  - rewrite (eq_bits self other Hs Ho). split; intros H f Hf.
    + now apply has_eq_bits; auto.
    + apply (has_eq_bits self other f); auto.
  - rewrite (eq_bits self other Hs Ho).
    destruct (hasAll_bits self other Hs Ho) as (r1 & -> & H1).
    destruct (hasAll_bits other self Ho Hs) as (r2 & -> & H2).
    split.
    + intros Hbits. split; f_equal.
      * apply H1. intros f Hf. now rewrite (Hbits f Hf).
      * apply H2. intros f Hf. now rewrite (Hbits f Hf).
    + intros [[= Hr1] [= Hr2]] f Hf.
      pose proof (proj1 H1 Hr1 f Hf). pose proof (proj1 H2 Hr2 f Hf).
      destruct (bit_of self f), (bit_of other f); auto.
      symmetry. auto.
  - unfold eq. apply bool_decide_ext. split; congruence.
  - reflexivity.
Qed.

(** X10: [empty] is true exactly of the sets with no feature, that is
    of the zero-initialised set alone; a set is never empty after an
    [add]. *)
Theorem empty_no_feature (self : Data) :
  Data_wf self ->
  (empty self = true <-> forall f, feature_id f -> has f self = Some false) /\
  (empty self = true <-> self = Data_zero) /\
  (forall f self', add f self = Some self' -> empty self' = false).
Proof.
  intros Hwf. split; [| split].
  - rewrite (empty_bits self Hwf). split; intros H f Hf.
    + now rewrite has_bit_of, (H f Hf) by assumption.
    + specialize (H f Hf). rewrite has_bit_of in H by assumption. congruence.
  - rewrite (empty_bits self Hwf). split.
    + intros Hbits. apply Data_ext; [assumption | apply Data_zero_wf |].
      intros f Hf. now rewrite (Hbits f Hf), bit_of_Data_zero.
    + intros -> f _. apply bit_of_Data_zero.
  - intros f self' Hadd.
    destruct (in_range_cases f) as [Hf | [_ Hltb]].
    + rewrite add_addIf, addIf_cast in Hadd.
      destruct (addIf_bits true self _ Hwf Hf) as (s & Hs & Hwf' & Hb).
      assert (s = self') as -> by congruence.
      apply not_true_is_false. intros Hempty.
      apply (empty_bits self' Hwf') with (f := uint32_t f) in Hempty;
        [| assumption].
      rewrite (Hb _ Hf), Z.eqb_refl in Hempty. discriminate.
    + unfold add in Hadd. rewrite Hltb in Hadd. discriminate.
Qed.

(** X11: [reset] gives the zero-initialised set back, whatever the set
    held: the result is empty, has no feature and is included in every
    set. *)
Theorem reset_clears (self : Data) :
  Data_wf self ->
  reset self = Data_zero /\
  empty (reset self) = true /\
  (forall f, feature_id f -> has f (reset self) = Some false) /\
  (forall other, Data_wf other -> hasAll other (reset self) = Some true).
Proof.
  intros [Hlen Hall].
  assert (reset self = Data_zero) as ->.
  { unfold reset, Data_zero, Support.fill. now rewrite Hlen. }
  split; [reflexivity | split; [| split]].
  - apply empty_bits; [apply Data_zero_wf |]. intros f _. apply bit_of_Data_zero.
  - intros f Hf. rewrite has_bit_of by (apply Data_zero_wf || assumption).
    now rewrite bit_of_Data_zero.
  - intros other Ho.
    destruct (hasAll_bits other Data_zero Ho Data_zero_wf) as (r & -> & Hr).
    f_equal. apply Hr. intros f _. rewrite bit_of_Data_zero. discriminate.
Qed.

(** X12: [hasAll] is transitive: a set that includes a second one,
    which includes a third, includes the third. *)
Theorem hasAll_trans (a b c : Data) :
  Data_wf a -> Data_wf b -> Data_wf c ->
  hasAll a b = Some true -> hasAll b c = Some true -> hasAll a c = Some true.
Proof.
  intros Ha Hb Hc.
  destruct (hasAll_bits a b Ha Hb) as (r1 & -> & H1).
  destruct (hasAll_bits b c Hb Hc) as (r2 & -> & H2).
  destruct (hasAll_bits a c Ha Hc) as (r3 & -> & H3).
  intros [= Hr1] [= Hr2]. f_equal. apply H3. intros f Hf Hcf.
  apply (proj1 H1 Hr1 f Hf). now apply (proj1 H2 Hr2 f Hf).
Qed.

(** X13: a mutation moves the set along the inclusion order: the set
    after [add f] includes the set before, the set before includes the set
    after [remove f]; and the set before includes the one after [add f]
    exactly when it already had [f]. *)
Theorem hasAll_after_mutation (f : Z) (self : Data) :
  Data_wf self -> feature_id f ->
  exists added removed,
    add f self = Some added /\ remove f self = Some removed /\
    hasAll added self = Some true /\
    hasAll self removed = Some true /\
    hasAll self added = has f self /\
    hasAll removed added = Some false.
Proof.
  intros Hwf Hf.
  destruct (add_bits self f Hwf Hf) as (sa & Ha & Hwa & Hba).
  destruct (remove_bits self f Hwf Hf) as (sr & Hr & Hwr & Hbr).
  exists sa, sr. split; [assumption | split; [assumption |]].
  split; [| split; [| split]].
  - destruct (hasAll_bits sa self Hwa Hwf) as (r & -> & Hiff).
    f_equal. apply Hiff. intros g Hg Hbit. rewrite (Hba g Hg), Hbit.
    apply orb_true_r.
  - destruct (hasAll_bits self sr Hwf Hwr) as (r & -> & Hiff).
    f_equal. apply Hiff. intros g Hg. rewrite (Hbr g Hg).
    intros Hbit. now apply andb_true_iff in Hbit as [_ ?].
  - destruct (hasAll_bits self sa Hwf Hwa) as (r & -> & Hiff).
    rewrite has_bit_of by assumption. f_equal.
    apply eq_true_iff_eq. rewrite Hiff. split.
    + intros Hsub. apply (Hsub f Hf). rewrite (Hba f Hf), Z.eqb_refl.
      reflexivity.
    + intros Hbit g Hg. rewrite (Hba g Hg).
      destruct (Z.eqb_spec g f) as [-> | _]; simpl; auto.
  - destruct (hasAll_bits sr sa Hwr Hwa) as (r & -> & Hiff).
    f_equal. apply not_true_is_false. intros Hr'.
    pose proof (proj1 Hiff Hr' f Hf) as Hsub.
    rewrite (Hba f Hf), (Hbr f Hf), Z.eqb_refl in Hsub. simpl in Hsub.
    specialize (Hsub eq_refl). discriminate.
Qed.

Lemma any_bit_mono (P Q : Z -> bool) (ids : list Z) :
  Forall feature_id ids ->
  (forall g, feature_id g -> P g = true -> Q g = true) ->
  foldr orb false (map P ids) = true -> foldr orb false (map Q ids) = true.
Proof.
  intros Hids Hsub. induction Hids as [| g ids Hg _ IH]; simpl; [auto |].
  intros Hany. apply orb_true_iff in Hany as [Hg' | Hrest].
  - rewrite (Hsub g Hg Hg'). reflexivity.
  - rewrite (IH Hrest). apply orb_true_r.
Qed.

(** X14: what [hasAny] finds in a set it finds in every set that
    includes it. *)
Theorem hasAll_hasAny (f : Z) (rest : list Z) (self other : Data) :
  Data_wf self -> Data_wf other -> Forall feature_id (f :: rest) ->
  hasAll self other = Some true ->
  hasAny f rest other = Some true -> hasAny f rest self = Some true.
Proof.
  intros Hs Ho Hids.
  destruct (hasAll_bits self other Hs Ho) as (r & -> & Hiff).
  rewrite !hasAny_bits by assumption.
  intros [= Hr] [= Hany]. f_equal.
  exact (any_bit_mono _ _ _ Hids (proj1 Hiff Hr) Hany).
Qed.
End Comparisons.

(** ** Sequences of mutations *)

Section Sequences.
Context {layout : BitWordLayout}.
Import CpuFeatures.

(** X15: of two mutations of the same id the last one decides, and
    mutations of two different ids can be done in either order. *)
Theorem mutations_compose (f g : Z) (self : Data) :
  Data_wf self -> feature_id f -> feature_id g ->
  add f self ≫= remove f = remove f self /\
  remove f self ≫= add f = add f self /\
  (f <> g -> add f self ≫= remove g = remove g self ≫= add f) /\
  add f self ≫= add g = add g self ≫= add f /\
  remove f self ≫= remove g = remove g self ≫= remove f.
Proof.
  intros Hwf Hf Hg.
  destruct (add_bits self f Hwf Hf) as (af & Haf & Hwaf & Hbaf).
  destruct (add_bits self g Hwf Hg) as (ag & Hag & Hwag & Hbag).
  destruct (remove_bits self f Hwf Hf) as (rf & Hrf & Hwrf & Hbrf).
  destruct (remove_bits self g Hwf Hg) as (rg & Hrg & Hwrg & Hbrg).
  rewrite Haf, Hag, Hrf, Hrg. simpl.
  split; [| split; [| split; [| split]]].
  - destruct (remove_bits af f Hwaf Hf) as (s & -> & Hws & Hbs).
    f_equal. apply Data_ext; [assumption | assumption |].
    intros h Hh. rewrite (Hbs h Hh), (Hbaf h Hh), (Hbrf h Hh).
    now destruct (h =? f), (bit_of self h).
  - destruct (add_bits rf f Hwrf Hf) as (s & -> & Hws & Hbs).
    f_equal. apply Data_ext; [assumption | assumption |].
    intros h Hh. rewrite (Hbs h Hh), (Hbaf h Hh), (Hbrf h Hh).
    now destruct (h =? f), (bit_of self h).
  - intros Hne.
    destruct (remove_bits af g Hwaf Hg) as (s & -> & Hws & Hbs).
    destruct (add_bits rg f Hwrg Hf) as (s' & -> & Hws' & Hbs').
    f_equal. apply Data_ext; [assumption | assumption |].
    intros h Hh. rewrite (Hbs h Hh), (Hbs' h Hh), (Hbaf h Hh), (Hbrg h Hh).
    destruct (Z.eqb_spec h f) as [Ef | _]; destruct (Z.eqb_spec h g) as [Eg | _];
      simpl; try (exfalso; congruence); now destruct (bit_of self h).
  - destruct (add_bits af g Hwaf Hg) as (s & -> & Hws & Hbs).
    destruct (add_bits ag f Hwag Hf) as (s' & -> & Hws' & Hbs').
    f_equal. apply Data_ext; [assumption | assumption |].
    intros h Hh. rewrite (Hbs h Hh), (Hbs' h Hh), (Hbaf h Hh), (Hbag h Hh).
    now destruct (h =? f), (h =? g), (bit_of self h).
  - destruct (remove_bits rf g Hwrf Hg) as (s & -> & Hws & Hbs).
    destruct (remove_bits rg f Hwrg Hf) as (s' & -> & Hws' & Hbs').
    f_equal. apply Data_ext; [assumption | assumption |].
    intros h Hh. rewrite (Hbs h Hh), (Hbs' h Hh), (Hbrf h Hh), (Hbrg h Hh).
    now destruct (h =? f), (h =? g), (bit_of self h).
Qed.
End Sequences.

(** ** The width of the word is not observable *)

(** X16: two feature sets stored with two word layouts (32-bit words in
    one, 64-bit words in the other, say) that answer [has] alike for every
    feature id still do so after the same [add], [remove] or [addIf], and
    they answer [empty] alike. *)
Theorem layouts_agree (L1 L2 : BitWordLayout) (s1 s2 : CpuFeatures.Data)
    (f : Z) :
  CpuFeatures.Data_wf (layout := L1) s1 ->
  CpuFeatures.Data_wf (layout := L2) s2 ->
  feature_id f ->
  (forall g, feature_id g ->
     CpuFeatures.has (layout := L1) g s1 = CpuFeatures.has (layout := L2) g s2) ->
  (exists a1 a2,
     CpuFeatures.add (layout := L1) f s1 = Some a1 /\
     CpuFeatures.add (layout := L2) f s2 = Some a2 /\
     forall g, feature_id g ->
       CpuFeatures.has (layout := L1) g a1 = CpuFeatures.has (layout := L2) g a2) /\
  (exists r1 r2,
     CpuFeatures.remove (layout := L1) f s1 = Some r1 /\
     CpuFeatures.remove (layout := L2) f s2 = Some r2 /\
     forall g, feature_id g ->
       CpuFeatures.has (layout := L1) g r1 = CpuFeatures.has (layout := L2) g r2) /\
  (forall c, exists c1 c2,
     CpuFeatures.addIf (layout := L1) c f s1 = Some c1 /\
     CpuFeatures.addIf (layout := L2) c f s2 = Some c2 /\
     forall g, feature_id g ->
       CpuFeatures.has (layout := L1) g c1 = CpuFeatures.has (layout := L2) g c2) /\
  CpuFeatures.empty s1 = CpuFeatures.empty s2.
Proof.
  intros H1 H2 Hf Hsame.
  assert (forall g, feature_id g ->
            bit_of (layout := L1) s1 g = bit_of (layout := L2) s2 g) as Hbits.
  { intros g Hg. specialize (Hsame g Hg).
    rewrite !has_bit_of in Hsame by assumption. congruence. }
  split; [| split; [| split]].
  - destruct (add_bits (layout := L1) s1 f H1 Hf) as (a1 & Ha1 & Hw1 & Hb1).
    destruct (add_bits (layout := L2) s2 f H2 Hf) as (a2 & Ha2 & Hw2 & Hb2).
    exists a1, a2. split; [assumption | split; [assumption |]].
    intros g Hg.
    now rewrite !has_bit_of, (Hb1 g Hg), (Hb2 g Hg), (Hbits g Hg) by assumption.
  - destruct (remove_bits (layout := L1) s1 f H1 Hf) as (a1 & Ha1 & Hw1 & Hb1).
    destruct (remove_bits (layout := L2) s2 f H2 Hf) as (a2 & Ha2 & Hw2 & Hb2).
    exists a1, a2. split; [assumption | split; [assumption |]].
    intros g Hg.
    now rewrite !has_bit_of, (Hb1 g Hg), (Hb2 g Hg), (Hbits g Hg) by assumption.
  - intros c.
    destruct (addIf_bits (layout := L1) c s1 f H1 Hf) as (a1 & Ha1 & Hw1 & Hb1).
    destruct (addIf_bits (layout := L2) c s2 f H2 Hf) as (a2 & Ha2 & Hw2 & Hb2).
    exists a1, a2. split; [assumption | split; [assumption |]].
    intros g Hg.
    now rewrite !has_bit_of, (Hb1 g Hg), (Hb2 g Hg), (Hbits g Hg) by assumption.
  - apply eq_true_iff_eq.
    rewrite (empty_bits (layout := L1) s1 H1), (empty_bits (layout := L2) s2 H2).
    split; intros H g Hg; [rewrite <- (Hbits g Hg) | rewrite (Hbits g Hg)];
      auto.
Qed.

(** ** The tables of ids *)

Section Enumerations.

Lemma enum_lookup_elem_of (values : list (string * Z)) name v :
  enum_lookup values name = Some v -> (name, v) ∈ values.
Proof.
  induction values as [| [n w] values IH]; simpl; [discriminate |].
  destruct (String.eqb_spec n name) as [-> | _].
  - intros [= ->]. apply elem_of_cons. now left.
  - intros Hv. apply elem_of_cons. right. auto.
Qed.

Lemma elem_of_enum_inj (values : list (string * Z)) (n1 n2 : string) v :
  NoDup (map snd values) ->
  (n1, v) ∈ values -> (n2, v) ∈ values -> n1 = n2.
Proof.
  induction values as [| [n w] values IH]; simpl; intros Hnd H1 H2.
  - now apply elem_of_nil in H1.
  - apply NoDup_cons in Hnd as [Hnotin Hnd].
    apply elem_of_cons in H1 as [E1 | H1];
      apply elem_of_cons in H2 as [E2 | H2].
    + congruence.
    + exfalso. apply Hnotin. apply list_elem_of_fmap.
      exists (n2, v). split; [simpl; congruence | assumption].
    + exfalso. apply Hnotin. apply list_elem_of_fmap.
      exists (n1, v). split; [simpl; congruence | assumption].
    + eauto.
Qed.

(** In a dense enumeration two names with the same value are the same
    name, and every value is below the number of enumerators. *)
Lemma dense_enum (values : list (string * Z)) count name v :
  map snd values = seqZ 0 count ->
  enum_lookup values name = Some v ->
  0 <= v < count /\
  forall name', enum_lookup values name' = Some v -> name' = name.
Proof.
  intros Hdense Hv. apply enum_lookup_elem_of in Hv. split.
  - assert (v ∈ map snd values) as Hin
      by (apply list_elem_of_fmap; now exists (name, v)).
    rewrite Hdense in Hin. apply elem_of_seqZ in Hin. lia.
  - intros name' Hv'. apply enum_lookup_elem_of in Hv'.
    apply (elem_of_enum_inj values name' name v); try assumption.
    rewrite Hdense. apply NoDup_seqZ.
Qed.

Lemma enum_lookup_Forall (values : list (string * Z))
    (P : string * Z -> Prop) name v :
  Forall P values -> enum_lookup values name = Some v -> P (name, v).
Proof.
  rewrite Forall_forall. intros HP Hv. now apply HP, enum_lookup_elem_of.
Qed.

Lemma enum_lookup_Forall_pairs (values : list (string * Z))
    (R : string * Z -> string * Z -> Prop) n1 v1 n2 v2 :
  Forall (fun p => Forall (R p) values) values ->
  enum_lookup values n1 = Some v1 -> enum_lookup values n2 = Some v2 ->
  R (n1, v1) (n2, v2).
Proof.
  intros HR H1 H2.
  apply (enum_lookup_Forall values (R (n1, v1)) n2 v2); [| assumption].
  exact (enum_lookup_Forall values (fun p => Forall (R p) values) n1 v1 HR H1).
Qed.

(** The table of [X86::Id]: the values run from 0 to [kMaxValue], 0 is the
    value of [kNone] alone, and two enumerators share a value only when
    they are [kXSAVES] and [kMaxValue]. *)
Lemma X86_Id_range :
  Forall (fun p : string * Z => 0 <= snd p <= X86.kMaxValue) X86.Id.
Proof. eapply bool_decide_eq_true_1. vm_compute. reflexivity. Qed.

Lemma X86_Id_kNone :
  Forall (fun p : string * Z => snd p = 0 -> fst p = "kNone"%string) X86.Id.
Proof. eapply bool_decide_eq_true_1. vm_compute. reflexivity. Qed.

Lemma X86_Id_shared :
  Forall (fun p : string * Z =>
            Forall (fun q : string * Z =>
                      snd p = snd q ->
                      fst p = fst q \/
                      (fst p ∈ ["kXSAVES"; "kMaxValue"]%string /\
                       fst q ∈ ["kXSAVES"; "kMaxValue"]%string)) X86.Id)
    X86.Id.
Proof. eapply bool_decide_eq_true_1. vm_compute. reflexivity. Qed.

Lemma X86_alias_value name id :
  name ∈ ["kXSAVES"; "kMaxValue"]%string ->
  X86.Id_value name = Some id -> id = X86.kMaxValue.
Proof.
  rewrite !elem_of_cons, elem_of_nil.
  intros [-> | [-> | []]] Hv; vm_compute in Hv; now injection Hv as <-.
Qed.

(** The table of [ARM::Id], likewise, with [kXS] and [kMaxValue]. *)
Lemma ARM_Id_range :
  Forall (fun p : string * Z => 0 <= snd p <= ARM.kMaxValue) ARM.Id.
Proof. eapply bool_decide_eq_true_1. vm_compute. reflexivity. Qed.

Lemma ARM_Id_kNone :
  Forall (fun p : string * Z => snd p = 0 -> fst p = "kNone"%string) ARM.Id.
Proof. eapply bool_decide_eq_true_1. vm_compute. reflexivity. Qed.

Lemma ARM_Id_shared :
  Forall (fun p : string * Z =>
            Forall (fun q : string * Z =>
                      snd p = snd q ->
                      fst p = fst q \/
                      (fst p ∈ ["kXS"; "kMaxValue"]%string /\
                       fst q ∈ ["kXS"; "kMaxValue"]%string)) ARM.Id)
    ARM.Id.
Proof. eapply bool_decide_eq_true_1. vm_compute. reflexivity. Qed.

Lemma ARM_alias_value name id :
  name ∈ ["kXS"; "kMaxValue"]%string ->
  ARM.Id_value name = Some id -> id = ARM.kMaxValue.
Proof.
  rewrite !elem_of_cons, elem_of_nil.
  intros [-> | [-> | []]] Hv; vm_compute in Hv; now injection Hv as <-.
Qed.
End Enumerations.

Section Accessors.
Context {layout : BitWordLayout}.
Import CpuFeatures.




Lemma other_enumerator_kept (id id' : Z) (self : Data) :
  feature_id id -> feature_id id' -> id' <> id -> Data_wf self ->
  exists added, add id self = Some added /\ has id' added = has id' self.
Proof.
  intros Hid Hid' Hne Hwf.
  destruct (add_bits self id Hwf Hid) as (s & Hs & Hws & Hb).
  exists s. split; [assumption |].
  rewrite !has_bit_of, (Hb id' Hid') by assumption.
  apply Z.eqb_neq in Hne. now rewrite Hne.
Qed.

(** X17: every enumerator of [X86::Id] is an id of the bit-set (the
    [static_assert] of the source), so [has] never fails on it; [kNone]
    alone is id 0; [kMaxValue] is a second name of [kXSAVES], and no other
    two enumerators share a value; and two enumerators with different
    values are two different bits: adding one leaves the test of the other
    as it was. *)
Theorem X86_feature_ids (name : string) (id : Z) (self : Data) :
  X86.Id_value name = Some id -> Data_wf self ->
  feature_id id /\ id <= X86.kMaxValue /\ X86.kMaxValue < kMaxFeatures /\
  (id = X86.kNone <-> name = "kNone"%string) /\
  (exists b, has id self = Some b) /\
  (forall name' id', X86.Id_value name' = Some id' ->
     (id' = id <->
      name' = name \/
      (name ∈ ["kXSAVES"; "kMaxValue"]%string /\
       name' ∈ ["kXSAVES"; "kMaxValue"]%string))) /\
  (forall name' id', X86.Id_value name' = Some id' -> id' <> id ->
     exists added, add id self = Some added /\ has id' added = has id' self).
Proof.
  intros Hv Hwf.
  assert (forall n v, X86.Id_value n = Some v -> feature_id v) as Hfit.
  { intros n v Hn.
    pose proof (enum_lookup_Forall _ _ _ _ X86_Id_range Hn) as Hr.
    simpl in Hr. revert Hr. unfold feature_id, kMaxFeatures, X86.kMaxValue.
    lia. }
  pose proof (enum_lookup_Forall _ _ _ _ X86_Id_range Hv) as Hrange.
  simpl in Hrange.
  split; [now apply (Hfit name) |].
  split; [lia |].
  split; [reflexivity |].
  split; [| split; [| split]].
  - split.
    + intros ->. exact (enum_lookup_Forall _ _ _ _ X86_Id_kNone Hv eq_refl).
    + intros ->. vm_compute in Hv. injection Hv as <-. reflexivity.
  - exists (bit_of self id). apply has_bit_of; [assumption | now apply (Hfit name)].
  - intros name' id' Hv'. split.
    + intros ->.
      destruct (enum_lookup_Forall_pairs _ _ _ _ _ _ X86_Id_shared Hv' Hv eq_refl)
        as [Hsame | [H1 H2]]; simpl in *; [now left | right; now split].
    + intros [-> | [H1 H2]].
      * unfold X86.Id_value in *. congruence.
      * rewrite (X86_alias_value _ _ H1 Hv), (X86_alias_value _ _ H2 Hv').
        reflexivity.
  - intros name' id' Hv' Hne.
    apply other_enumerator_kept; eauto.
Qed.

(** X18: every enumerator of [ARM::Id] is an id of the bit-set (the
    [static_assert] of the source), so [has] never fails on it; [kNone]
    alone is id 0; [kMaxValue] is a second name of [kXS], and no other
    two enumerators share a value; and two enumerators with different
    values are two different bits: adding one leaves the test of the other
    as it was. *)
Theorem ARM_feature_ids (name : string) (id : Z) (self : Data) :
  ARM.Id_value name = Some id -> Data_wf self ->
  feature_id id /\ id <= ARM.kMaxValue /\ ARM.kMaxValue < kMaxFeatures /\
  (id = ARM.kNone <-> name = "kNone"%string) /\
  (exists b, has id self = Some b) /\
  (forall name' id', ARM.Id_value name' = Some id' ->
     (id' = id <->
      name' = name \/
      (name ∈ ["kXS"; "kMaxValue"]%string /\
       name' ∈ ["kXS"; "kMaxValue"]%string))) /\
  (forall name' id', ARM.Id_value name' = Some id' -> id' <> id ->
     exists added, add id self = Some added /\ has id' added = has id' self).
Proof.
  intros Hv Hwf.
  assert (forall n v, ARM.Id_value n = Some v -> feature_id v) as Hfit.
  { intros n v Hn.
    pose proof (enum_lookup_Forall _ _ _ _ ARM_Id_range Hn) as Hr.
    simpl in Hr. revert Hr. unfold feature_id, kMaxFeatures, ARM.kMaxValue.
    lia. }
  pose proof (enum_lookup_Forall _ _ _ _ ARM_Id_range Hv) as Hrange.
  simpl in Hrange.
  split; [now apply (Hfit name) |].
  split; [lia |].
  split; [reflexivity |].
  split; [| split; [| split]].
  - split.
    + intros ->. exact (enum_lookup_Forall _ _ _ _ ARM_Id_kNone Hv eq_refl).
    + intros ->. vm_compute in Hv. injection Hv as <-. reflexivity.
  - exists (bit_of self id). apply has_bit_of; [assumption | now apply (Hfit name)].
  - intros name' id' Hv'. split.
    + intros ->.
      destruct (enum_lookup_Forall_pairs _ _ _ _ _ _ ARM_Id_shared Hv' Hv eq_refl)
        as [Hsame | [H1 H2]]; simpl in *; [now left | right; now split].
    + intros [-> | [H1 H2]].
      * unfold ARM.Id_value in *. congruence.
      * rewrite (ARM_alias_value _ _ H1 Hv), (ARM_alias_value _ _ H2 Hv').
        reflexivity.
  - intros name' id' Hv' Hne.
    apply other_enumerator_kept; eauto.
Qed.


End Accessors.

(** ** Instruction ids of a32 *)

Section InstIds.
Import a32.Inst.

Lemma lor_lower_bound r m : 0 <= r -> m <= Z.lor r m.
Proof.
  intros Hr. pose proof (Z.sub_lor_l_same_r r m) as Hsub.
  assert (0 <= Z.land r (Z.lnot m)) by (apply Z.land_nonneg; now left).
  lia.
Qed.

Lemma lor_uint32 r m :
  0 <= r < 2 ^ 32 -> 0 <= m < 2 ^ 32 -> 0 <= Z.lor r m < 2 ^ 32.
Proof.
  intros Hr Hm.
  exact (lor_is_BitWord (layout := BitWord32) r m Hr Hm).
Qed.

(** X21: an instruction id that carries modifier bits, that is any bit
    at position 9 or above, is not a defined id, whatever the id below
    the modifiers; a negative value is never a defined id; and the ids
    below a defined id are defined. *)
Theorem isDefinedId_edges (i m : Z) :
  0 <= i < 2 ^ 32 -> 2 ^ 9 <= m < 2 ^ 32 ->
  isDefinedId (Z.lor i m) = false /\
  (forall j, - 2 ^ 31 <= j < 0 -> isDefinedId j = false) /\
  (isDefinedId i = true -> forall j, 0 <= j <= i -> isDefinedId j = true).
Proof.
  intros Hi Hm. change (2 ^ 9) with 512 in Hm. split; [| split].
  - unfold isDefinedId.
    pose proof (lor_lower_bound i m (proj1 Hi)).
    rewrite uint32_t_small by (apply lor_uint32; lia).
    apply Z.ltb_ge. unfold _kIdCount. lia.
  - intros j Hj. unfold isDefinedId, uint32_t.
    rewrite <- (Z.mod_add j 1) by discriminate.
    change (2 ^ 31) with 2147483648 in Hj.
    rewrite Z.mod_small; change (2 ^ 32) with 4294967296; [| lia].
    apply Z.ltb_ge. unfold _kIdCount. lia.
  - unfold isDefinedId. rewrite uint32_t_small by assumption.
    intros Hdef j Hj. apply Z.ltb_lt in Hdef.
    rewrite uint32_t_small by lia. apply Z.ltb_lt. lia.
Qed.

(** X22: every enumerator of [a32::Inst::Id] but the count itself is a
    defined id; [kIdNone] alone is id 0; and two different enumerators
    are two different ids. *)
Theorem a32_enumerators (name : string) (id : Z) :
  Id_value name = Some id ->
  (isDefinedId id = true <-> name <> "_kIdCount"%string) /\
  (id = kIdNone <-> name = "kIdNone"%string) /\
  (forall name', Id_value name' = Some id -> name' = name).
Proof.
  intros Hv.
  destruct (dense_enum Id _ name id Id_dense Hv) as [Hrange Hinj].
  split; [| split].
  - unfold isDefinedId. rewrite uint32_t_small
      by (unfold _kIdCount in Hrange; change (2 ^ 32) with 4294967296; lia).
    rewrite Z.ltb_lt. split.
    + intros Hlt ->. vm_compute in Hv. injection Hv as <-.
      unfold _kIdCount in Hlt. lia.
    + intros Hne. destruct (Z.eq_dec id _kIdCount) as [-> | Hid]; [| lia].
      exfalso. apply Hne. symmetry. now apply Hinj.
  - split.
    + intros ->. symmetry. now apply Hinj.
    + intros ->. vm_compute in Hv. injection Hv as <-. reflexivity.
  - exact Hinj.
Qed.
End InstIds.

(** ** CpuInfo: architecture and features *)

Section CpuInfoFeatures.
Context {layout : BitWordLayout}.

(** Of two [initArch] calls the last one decides; [initArch] with
    the tags the record already has changes nothing; [initArch(arch)]
    alone puts the sub-architecture back to [kUnknown]; and [reset] after
    [initArch] gives the default object. *)
Lemma initArch_overwrites (a1 s1 a2 s2 : Z) (self : CpuInfo.t) :
  CpuInfo.initArch a2 s2 (CpuInfo.initArch a1 s1 self)
  = CpuInfo.initArch a2 s2 self /\
  CpuInfo.initArch (CpuInfo.arch self) (CpuInfo.subArch self) self = self /\
  CpuInfo.subArch (CpuInfo.initArch_default a2 (CpuInfo.initArch a1 s1 self))
  = CpuInfo.SubArch_kUnknown /\
  CpuInfo.reset (CpuInfo.initArch a1 s1 self) = CpuInfo.ctor self.
Proof.
  split; [reflexivity | split; [| split; reflexivity]].
  now destruct self.
Qed.

(** X23: [addFeature(ids...)] and [removeFeature(ids...)] with ids
    below 256 succeed; afterwards [hasFeature] is true, respectively
    false, of each id of the pack and unchanged of every other id; and no
    other member of the record changes. *)
Theorem addFeature_removeFeature (f : Z) (rest : list Z) (self : CpuInfo.t) :
  CpuFeatures.Data_wf (CpuFeaturesClass._data (CpuInfo.features self)) ->
  Forall feature_id (f :: rest) ->
  exists added removed,
    CpuInfo.addFeature f rest self = Some added /\
    CpuInfo.removeFeature f rest self = Some removed /\
    (forall g, g ∈ f :: rest ->
       CpuInfo.hasFeature g added = Some true /\
       CpuInfo.hasFeature g removed = Some false) /\
    (forall g, feature_id g -> g ∉ f :: rest ->
       CpuInfo.hasFeature g added = CpuInfo.hasFeature g self /\
       CpuInfo.hasFeature g removed = CpuInfo.hasFeature g self) /\
    added = CpuInfo.with_features (CpuInfo.features added) self /\
    removed = CpuInfo.with_features (CpuInfo.features removed) self /\
    CpuInfo.arch added = CpuInfo.arch self /\
    CpuInfo.subArch added = CpuInfo.subArch self /\
    CpuInfo.wasDetected added = CpuInfo.wasDetected self /\
    CpuInfo.vendor added = CpuInfo.vendor self.
Proof.
  intros Hwf Hids.
  destruct (add_pack_bits rest f _ Hwf Hids) as (da & Hda & Hwa & Hba).
  destruct (remove_pack_bits rest f _ Hwf Hids) as (dr & Hdr & Hwr & Hbr).
  unfold CpuInfo.addFeature, CpuInfo.removeFeature,
    CpuFeaturesClass.add, CpuFeaturesClass.remove.
  unfold CpuInfo.features in Hda, Hdr. rewrite Hda, Hdr. simpl.
  eexists. eexists. split; [reflexivity | split; [reflexivity |]].
  unfold CpuInfo.hasFeature, CpuFeaturesClass.has. simpl.
  split; [| split; [| repeat split]].
  - intros g Hin.
    assert (feature_id g) as Hg
      by (rewrite Forall_forall in Hids; now apply Hids).
    rewrite !has_bit_of, (Hba g Hg), (Hbr g Hg) by assumption.
    rewrite bool_decide_eq_true_2 by assumption. split; reflexivity.
  - intros g Hg Hnotin.
    rewrite !has_bit_of, (Hba g Hg), (Hbr g Hg) by assumption.
    rewrite bool_decide_eq_false_2 by assumption. split; reflexivity.
Qed.

(** X24: a default-constructed [CpuInfo] seeded with [initArch] has no
    feature; [addFeature] then gives a record that has the feature, keeps
    the architecture tags and is still not detected. *)
Theorem seeded_CpuInfo (uninitialized : CpuInfo.t) (arch subArch f : Z) :
  feature_id f ->
  let seeded := CpuInfo.initArch arch subArch (CpuInfo.ctor uninitialized) in
  CpuInfo.hasFeature f seeded = Some false /\
  exists added,
    CpuInfo.addFeature f [] seeded = Some added /\
    CpuInfo.hasFeature f added = Some true /\
    CpuInfo.arch added = arch /\
    CpuInfo.subArch added = subArch /\
    CpuInfo.wasDetected added = false.
Proof.
  intros Hf. simpl.
  unfold CpuInfo.hasFeature, CpuInfo.addFeature,
    CpuFeaturesClass.has, CpuFeaturesClass.add. simpl.
  fold CpuFeatures.Data_zero. split.
  - rewrite has_bit_of by (apply Data_zero_wf || assumption).
    now rewrite bit_of_Data_zero.
  - destruct (add_bits CpuFeatures.Data_zero f Data_zero_wf Hf)
      as (d & -> & Hwd & Hb). simpl.
    eexists. split; [reflexivity |]. simpl.
    rewrite has_bit_of, (Hb f Hf), Z.eqb_refl by assumption.
    repeat split.
Qed.
End CpuInfoFeatures.

(** ** The further properties at work *)

Section FurtherOnBitWord64.
Local Existing Instance BitWord64.
Import CpuFeatures.

Local Abbreviation sample := {| _bits := [6; 0; 0; 1] |}.
Local Abbreviation larger := {| _bits := [7; 0; 0; 1] |}.
Local Abbreviation largest := {| _bits := [15; 0; 8; 1] |}.

Lemma sample_wf : Data_wf sample.
Proof. words_ok. Qed.

Lemma larger_wf : Data_wf larger.
Proof. words_ok. Qed.

Lemma largest_wf : Data_wf largest.
Proof. words_ok. Qed.

Lemma single_id_assertion_witness :
  Data_wf sample /\
  ((has 300 sample = None <-> kMaxFeatures <= uint32_t 300) /\
   (add 300 sample = None <-> kMaxFeatures <= uint32_t 300) /\
   (remove 300 sample = None <-> kMaxFeatures <= uint32_t 300) /\
   (forall c, addIf c 300 sample = None <-> kMaxFeatures <= uint32_t 300) /\
   (-2 ^ 31 <= 300 < 0 -> has 300 sample = None)).
Proof.
  split; [exact sample_wf | exact (single_id_assertion 300 sample sample_wf)].
Defined.

Lemma pack_assertion_witness :
  Data_wf sample /\
  (let out_of_range :=
     Exists (fun g => kMaxFeatures <= uint32_t g) [1; 256; 2] in
   (hasAny 1 [256; 2] sample = None <-> out_of_range) /\
   (add_pack 1 [256; 2] sample = None <-> out_of_range) /\
   (remove_pack 1 [256; 2] sample = None <-> out_of_range) /\
   (forall c, addIf_pack c 1 [256; 2] sample = None <-> out_of_range)).
Proof.
  split; [exact sample_wf | exact (pack_assertion 1 [256; 2] sample sample_wf)].
Defined.

Lemma sample_reachable : reachable (fun _ => True) sample.
Proof.
  apply (reachable_add _ 1 [2; 192] Data_zero).
  - apply reachable_zero.
  - repeat (apply Forall_cons_2; [exact I |]). apply Forall_nil_2.
  - reflexivity.
Qed.

Lemma storage_invariant_witness :
  reachable (fun _ => True) sample /\
  (Z.of_nat (length (bits sample)) = bitWordCount sample /\
   Forall Support.is_BitWord (bits sample) /\
   bitWordCount sample * kBitWordSizeInBits = kMaxFeatures).
Proof.
  split; [exact sample_reachable | exact (storage_invariant sample sample_reachable)].
Defined.

Lemma ids_1_2_200 : Forall feature_id [1; 2; 200].
Proof. feature_ids. Qed.

Lemma add_pack_exact_witness :
  Data_wf sample /\ Forall feature_id [1; 2; 200] /\
  (exists self', add_pack 1 [2; 200] sample = Some self' /\
     forall g, feature_id g ->
       exists b, has g sample = Some b /\
                 has g self' = Some (bool_decide (g ∈ [1; 2; 200]) || b)).
Proof.
  split; [exact sample_wf | split; [exact ids_1_2_200 |]].
  exact (add_pack_exact 1 [2; 200] sample sample_wf ids_1_2_200).
Defined.

Lemma remove_pack_exact_witness :
  Data_wf sample /\ Forall feature_id [1; 2; 200] /\
  (exists self', remove_pack 1 [2; 200] sample = Some self' /\
     forall g, feature_id g ->
       exists b, has g sample = Some b /\
                 has g self' = Some (negb (bool_decide (g ∈ [1; 2; 200])) && b)).
Proof.
  split; [exact sample_wf | split; [exact ids_1_2_200 |]].
  exact (remove_pack_exact 1 [2; 200] sample sample_wf ids_1_2_200).
Defined.

Lemma id_5 : feature_id 5.
Proof. feature_ids. Qed.

Lemma id_2 : feature_id 2.
Proof. feature_ids. Qed.

Lemma add_remove_round_trip_witness :
  Data_wf sample /\ feature_id 5 /\
  ((has 5 sample = Some false -> add 5 sample ≫= remove 5 = Some sample) /\
   (has 5 sample = Some true -> remove 5 sample ≫= add 5 = Some sample)).
Proof.
  split; [exact sample_wf | split; [exact id_5 |]].
  exact (add_remove_round_trip 5 sample sample_wf id_5).
Defined.

Lemma same_ids_example : forall g : Z, g ∈ [1; 2; 200] <-> g ∈ [200; 1; 2; 1].
Proof.
  intros g. rewrite !elem_of_cons, !elem_of_nil. tauto.
Qed.

Lemma pack_order_irrelevant_witness :
  Data_wf sample /\ Forall feature_id [1; 2; 200] /\
  (forall g : Z, g ∈ [1; 2; 200] <-> g ∈ [200; 1; 2; 1]) /\
  (add_pack 1 [2; 200] sample = add_pack 200 [1; 2; 1] sample /\
   remove_pack 1 [2; 200] sample = remove_pack 200 [1; 2; 1] sample /\
   (forall c, addIf_pack c 1 [2; 200] sample = addIf_pack c 200 [1; 2; 1] sample)).
Proof.
  split; [exact sample_wf | split; [exact ids_1_2_200 |]].
  split; [exact same_ids_example |].
  exact (pack_order_irrelevant 1 200 [2; 200] [1; 2; 1] sample
           sample_wf ids_1_2_200 same_ids_example).
Defined.

Lemma addIf_is_conditional_add_witness :
  Data_wf sample /\
  (addIf_pack true 1 [256; 2] sample = add_pack 1 [256; 2] sample /\
   addIf_pack false 1 [256; 2] sample =
     if forallb (fun g => uint32_t g <? kMaxFeatures) [1; 256; 2]
     then Some sample else None).
Proof.
  split; [exact sample_wf |].
  exact (addIf_is_conditional_add 1 [256; 2] sample sample_wf).
Defined.

Lemma eq_same_features_witness :
  Data_wf sample /\ Data_wf larger /\
  ((eq sample larger = true <->
    forall f, feature_id f -> has f sample = has f larger) /\
   (eq sample larger = true <->
    hasAll sample larger = Some true /\ hasAll larger sample = Some true) /\
   eq sample larger = eq larger sample /\
   op_ne sample larger = negb (op_eq sample larger)).
Proof.
  split; [exact sample_wf | split; [exact larger_wf |]].
  exact (eq_same_features sample larger sample_wf larger_wf).
Defined.

Lemma empty_no_feature_witness :
  Data_wf sample /\
  ((empty sample = true <->
    forall f, feature_id f -> has f sample = Some false) /\
   (empty sample = true <-> sample = Data_zero) /\
   (forall f self', add f sample = Some self' -> empty self' = false)).
Proof.
  split; [exact sample_wf | exact (empty_no_feature sample sample_wf)].
Defined.

Lemma reset_clears_witness :
  Data_wf sample /\
  (reset sample = Data_zero /\
   empty (reset sample) = true /\
   (forall f, feature_id f -> has f (reset sample) = Some false) /\
   (forall other, Data_wf other -> hasAll other (reset sample) = Some true)).
Proof.
  split; [exact sample_wf | exact (reset_clears sample sample_wf)].
Defined.

Lemma hasAll_trans_witness :
  Data_wf largest /\ Data_wf larger /\ Data_wf sample /\
  hasAll largest larger = Some true /\ hasAll larger sample = Some true /\
  hasAll largest sample = Some true.
Proof.
  split; [exact largest_wf | split; [exact larger_wf | split; [exact sample_wf |]]].
  split; [reflexivity | split; [reflexivity |]].
  exact (hasAll_trans largest larger sample largest_wf larger_wf sample_wf
           eq_refl eq_refl).
Defined.

Lemma hasAll_after_mutation_witness :
  Data_wf sample /\ feature_id 5 /\
  (exists added removed,
     add 5 sample = Some added /\ remove 5 sample = Some removed /\
     hasAll added sample = Some true /\
     hasAll sample removed = Some true /\
     hasAll sample added = has 5 sample /\
     hasAll removed added = Some false).
Proof.
  split; [exact sample_wf | split; [exact id_5 |]].
  exact (hasAll_after_mutation 5 sample sample_wf id_5).
Defined.

Lemma ids_5_2 : Forall feature_id [5; 2].
Proof. feature_ids. Qed.

Lemma hasAll_hasAny_witness :
  Data_wf larger /\ Data_wf sample /\ Forall feature_id [5; 2] /\
  hasAll larger sample = Some true /\
  hasAny 5 [2] sample = Some true /\
  hasAny 5 [2] larger = Some true.
Proof.
  split; [exact larger_wf | split; [exact sample_wf | split; [exact ids_5_2 |]]].
  split; [reflexivity | split; [reflexivity |]].
  exact (hasAll_hasAny 5 [2] larger sample larger_wf sample_wf ids_5_2
           eq_refl eq_refl).
Defined.

Lemma mutations_compose_witness :
  Data_wf sample /\ feature_id 5 /\ feature_id 2 /\
  (add 5 sample ≫= remove 5 = remove 5 sample /\
   remove 5 sample ≫= add 5 = add 5 sample /\
   (5 <> 2 -> add 5 sample ≫= remove 2 = remove 2 sample ≫= add 5) /\
   add 5 sample ≫= add 2 = add 2 sample ≫= add 5 /\
   remove 5 sample ≫= remove 2 = remove 2 sample ≫= remove 5).
Proof.
  split; [exact sample_wf | split; [exact id_5 | split; [exact id_2 |]]].
  exact (mutations_compose 5 2 sample sample_wf id_5 id_2).
Defined.
End FurtherOnBitWord64.

Section FurtherOnBothLayouts.
Import CpuFeatures.

Local Abbreviation words32 := {| _bits := [6; 0; 0; 0; 0; 0; 1; 0] |}.
Local Abbreviation words64 := {| _bits := [6; 0; 0; 1] |}.

Lemma words32_wf : Data_wf (layout := BitWord32) words32.
Proof. words_ok. Qed.

Lemma words64_wf : Data_wf (layout := BitWord64) words64.
Proof. words_ok. Qed.

Lemma words_same_features :
  forall g, feature_id g ->
    has (layout := BitWord32) g words32 = has (layout := BitWord64) g words64.
Proof.
  intros g Hg.
  assert (Forall (fun g => has (layout := BitWord32) g words32
                           = has (layout := BitWord64) g words64)
            (seqZ 0 256)) as Hall.
  { eapply bool_decide_eq_true_1. vm_compute. reflexivity. }
  rewrite Forall_forall in Hall. apply Hall. apply elem_of_seqZ.
  unfold feature_id, kMaxFeatures in Hg. lia.
Qed.

Lemma id_70 : feature_id 70.
Proof. feature_ids. Qed.

Lemma layouts_agree_witness :
  Data_wf (layout := BitWord32) words32 /\
  Data_wf (layout := BitWord64) words64 /\
  feature_id 70 /\
  (forall g, feature_id g ->
     has (layout := BitWord32) g words32 = has (layout := BitWord64) g words64) /\
  ((exists a1 a2,
      add (layout := BitWord32) 70 words32 = Some a1 /\
      add (layout := BitWord64) 70 words64 = Some a2 /\
      forall g, feature_id g ->
        has (layout := BitWord32) g a1 = has (layout := BitWord64) g a2) /\
   (exists r1 r2,
      remove (layout := BitWord32) 70 words32 = Some r1 /\
      remove (layout := BitWord64) 70 words64 = Some r2 /\
      forall g, feature_id g ->
        has (layout := BitWord32) g r1 = has (layout := BitWord64) g r2) /\
   (forall c, exists c1 c2,
      addIf (layout := BitWord32) c 70 words32 = Some c1 /\
      addIf (layout := BitWord64) c 70 words64 = Some c2 /\
      forall g, feature_id g ->
        has (layout := BitWord32) g c1 = has (layout := BitWord64) g c2) /\
   empty words32 = empty words64).
Proof.
  split; [exact words32_wf | split; [exact words64_wf |]].
  split; [exact id_70 | split; [exact words_same_features |]].
  exact (layouts_agree BitWord32 BitWord64 words32 words64 70
           words32_wf words64_wf id_70 words_same_features).
Defined.
End FurtherOnBothLayouts.

Section FurtherOnTables.
Local Existing Instance BitWord64.
Import CpuFeatures.

Local Abbreviation sample := {| _bits := [6; 0; 0; 1] |}.

Lemma X86_feature_ids_witness :
  X86.Id_value "kXSAVES" = Some 132 /\ Data_wf sample /\
  (feature_id 132 /\ 132 <= X86.kMaxValue /\ X86.kMaxValue < kMaxFeatures /\
   (132 = X86.kNone <-> "kXSAVES"%string = "kNone"%string) /\
   (exists b, has 132 sample = Some b) /\
   (forall name' id', X86.Id_value name' = Some id' ->
      (id' = 132 <->
       name' = "kXSAVES"%string \/
       ("kXSAVES"%string ∈ ["kXSAVES"; "kMaxValue"]%string /\
        name' ∈ ["kXSAVES"; "kMaxValue"]%string))) /\
   (forall name' id', X86.Id_value name' = Some id' -> id' <> 132 ->
      exists added, add 132 sample = Some added /\
                    has id' added = has id' sample)).
Proof.
  split; [reflexivity | split; [exact sample_wf |]].
  exact (X86_feature_ids "kXSAVES" 132 sample eq_refl sample_wf).
Defined.

Lemma ARM_feature_ids_witness :
  ARM.Id_value "kTHUMB" = Some 4 /\ Data_wf sample /\
  (feature_id 4 /\ 4 <= ARM.kMaxValue /\ ARM.kMaxValue < kMaxFeatures /\
   (4 = ARM.kNone <-> "kTHUMB"%string = "kNone"%string) /\
   (exists b, has 4 sample = Some b) /\
   (forall name' id', ARM.Id_value name' = Some id' ->
      (id' = 4 <->
       name' = "kTHUMB"%string \/
       ("kTHUMB"%string ∈ ["kXS"; "kMaxValue"]%string /\
        name' ∈ ["kXS"; "kMaxValue"]%string))) /\
   (forall name' id', ARM.Id_value name' = Some id' -> id' <> 4 ->
      exists added, add 4 sample = Some added /\
                    has id' added = has id' sample)).
Proof.
  split; [reflexivity | split; [exact sample_wf |]].
  exact (ARM_feature_ids "kTHUMB" 4 sample eq_refl sample_wf).
Defined.





Lemma id_3_uint32 : 0 <= 3 < 2 ^ 32.
Proof. split; [discriminate | reflexivity]. Qed.

Lemma modifier_bit_27 : 2 ^ 9 <= 2 ^ 27 < 2 ^ 32.
Proof. split; [discriminate | reflexivity]. Qed.

Lemma isDefinedId_edges_witness :
  0 <= 3 < 2 ^ 32 /\ 2 ^ 9 <= 2 ^ 27 < 2 ^ 32 /\
  (a32.Inst.isDefinedId (Z.lor 3 (2 ^ 27)) = false /\
   (forall j, - 2 ^ 31 <= j < 0 -> a32.Inst.isDefinedId j = false) /\
   (a32.Inst.isDefinedId 3 = true ->
    forall j, 0 <= j <= 3 -> a32.Inst.isDefinedId j = true)).
Proof.
  split; [exact id_3_uint32 | split; [exact modifier_bit_27 |]].
  exact (isDefinedId_edges 3 (2 ^ 27) id_3_uint32 modifier_bit_27).
Defined.

Lemma a32_enumerators_witness :
  a32.Inst.Id_value "kIdAdd" = Some 3 /\
  ((a32.Inst.isDefinedId 3 = true <-> "kIdAdd"%string <> "_kIdCount"%string) /\
   (3 = a32.Inst.kIdNone <-> "kIdAdd"%string = "kIdNone"%string) /\
   (forall name', a32.Inst.Id_value name' = Some 3 -> name' = "kIdAdd"%string)).
Proof.
  split; [reflexivity |].
  exact (a32_enumerators "kIdAdd" 3 eq_refl).
Defined.

Local Abbreviation detected :=
  {| CpuInfo._arch := 1;
     CpuInfo._subArch := 0;
     CpuInfo._wasDetected := true;
     CpuInfo._reserved := 0;
     CpuInfo._familyId := 6;
     CpuInfo._modelId := 158;
     CpuInfo._brandId := 0;
     CpuInfo._stepping := 10;
     CpuInfo._processorType := 0;
     CpuInfo._maxLogicalProcessors := 16;
     CpuInfo._cacheLineSize := 64;
     CpuInfo._hwThreadCount := 8;
     CpuInfo._vendor := FixedString.zeroed 16;
     CpuInfo._brand := FixedString.zeroed 64;
     CpuInfo._features := {| CpuFeaturesClass._data := sample |} |}.

Lemma addFeature_removeFeature_witness :
  Data_wf (CpuFeaturesClass._data (CpuInfo.features detected)) /\
  Forall feature_id [1; 2; 200] /\
  (exists added removed,
     CpuInfo.addFeature 1 [2; 200] detected = Some added /\
     CpuInfo.removeFeature 1 [2; 200] detected = Some removed /\
     (forall g, g ∈ [1; 2; 200] ->
        CpuInfo.hasFeature g added = Some true /\
        CpuInfo.hasFeature g removed = Some false) /\
     (forall g, feature_id g -> g ∉ [1; 2; 200] ->
        CpuInfo.hasFeature g added = CpuInfo.hasFeature g detected /\
        CpuInfo.hasFeature g removed = CpuInfo.hasFeature g detected) /\
     added = CpuInfo.with_features (CpuInfo.features added) detected /\
     removed = CpuInfo.with_features (CpuInfo.features removed) detected /\
     CpuInfo.arch added = CpuInfo.arch detected /\
     CpuInfo.subArch added = CpuInfo.subArch detected /\
     CpuInfo.wasDetected added = CpuInfo.wasDetected detected /\
     CpuInfo.vendor added = CpuInfo.vendor detected).
Proof.
  split; [exact sample_wf | split; [exact ids_1_2_200 |]].
  exact (addFeature_removeFeature 1 [2; 200] detected sample_wf ids_1_2_200).
Defined.

Lemma id_13 : feature_id 13.
Proof. feature_ids. Qed.

Lemma seeded_CpuInfo_witness :
  feature_id 13 /\
  (let seeded := CpuInfo.initArch 2 0 (CpuInfo.ctor detected) in
   CpuInfo.hasFeature 13 seeded = Some false /\
   exists added,
     CpuInfo.addFeature 13 [] seeded = Some added /\
     CpuInfo.hasFeature 13 added = Some true /\
     CpuInfo.arch added = 2 /\
     CpuInfo.subArch added = 0 /\
     CpuInfo.wasDetected added = false).
Proof.
  split; [exact id_13 |].
  exact (seeded_CpuInfo detected 2 0 13 id_13).
Defined.
End FurtherOnTables.
